(** * The Spectrum 2 theme: runtime helpers, shorthands and conditions

    A shallow embedding of
    [packages/@react-spectrum/s2/style/spectrum-theme.ts].

    The theme is a TypeScript module.  Its values are JavaScript values,
    so the embedding starts with the small part of the language the module
    relies on: IEEE 754 numbers and their conversion to and from strings,
    objects as ordered property lists, and the receiver ([this]) of a
    call.  The definitions of the theme follow, under the names they have
    in the source. *)

From Stdlib Require Import ZArith Bool Ascii String DecimalString Sorted.
From Stdlib Require Import Floats.SpecFloat.
From stdpp Require Import base tactics option list strings sorting.

#[local] Open Scope Z_scope.

(** ** JavaScript values *)

Module JS.

(** *** Numbers

    A Number is an IEEE 754 binary64 value.  [spec_float] is the Flocq
    style representation of the Standard Library: a finite number is
    [(-1)^s * m * 2^e]; there is one NaN, as in JavaScript. *)

Definition number : Type := spec_float.

Definition prec : Z := 53.
Definition emax : Z := 1024.

Definition NaN : number := S754_nan.

Definition num_mul : number -> number -> number := SFmul prec emax.
Definition num_div : number -> number -> number := SFdiv prec emax.
Definition num_neg : number -> number := SFopp.

(** The Number nearest to [m * 10^q] (round to nearest, ties to even),
    that is, the value of the decimal literal with digits [m] and
    exponent [q].  For [q < 0] the quotient [m / 10^(-q)] is rounded once,
    by the division on unnormalised mantissas. *)
Definition num_of_decimal (m : Z) (q : Z) : number :=
  match m with
  | Z0 => S754_zero false
  | Zneg _ => NaN
  | Zpos p =>
      if 0 <=? q then binary_normalize prec emax (m * 10 ^ q) 0 false
      else
        let '(mz, ez, lz) :=
          SFdiv_core_binary prec emax m 0 (10 ^ (- q)) 0 in
        binary_round_aux prec emax false mz ez lz
  end.

(** An integer literal. *)
Definition num_of_Z (z : Z) : number :=
  match z with
  | Zneg p => num_neg (num_of_decimal (Zpos p) 0)
  | _ => num_of_decimal z 0
  end.

Definition num_eqb (x y : number) : bool :=
  match x, y with
  | S754_zero a, S754_zero b => Bool.eqb a b
  | S754_infinity a, S754_infinity b => Bool.eqb a b
  | S754_nan, S754_nan => true
  | S754_finite a m e, S754_finite b m' e' =>
      Bool.eqb a b && Pos.eqb m m' && Z.eqb e e'
  | _, _ => false
  end.

(** *** Number::toString (radix 10)

    ECMA-262, 6.1.6.1.20.  For a positive finite [x] the digits are the
    integers [n], [k], [s] with [10^(k-1) <= s < 10^k], such that
    [s * 10^(n-k)] is [x] as a Number, [k] as small as possible and, among
    those, [s * 10^(n-k)] closest to [x]. *)

Definition digits_of_pos (p : positive) : string :=
  NilEmpty.string_of_uint (Pos.to_uint p).

Definition digits_of_Z (z : Z) : string :=
  match z with
  | Zpos p => digits_of_pos p
  | _ => "0"
  end.

(** Number of decimal digits of a positive integer. *)
Definition dec_len (z : Z) : Z := Z.of_nat (String.length (digits_of_Z z)).

(** The exact value of a positive finite number, as a fraction. *)
Definition frac_of (m : positive) (e : Z) : Z * Z :=
  if 0 <=? e then (Zpos m * 2 ^ e, 1) else (Zpos m, 2 ^ (- e)).

(** [a / b * 10^j] as a fraction. *)
Definition scale10 (ab : Z * Z) (j : Z) : Z * Z :=
  let '(a, b) := ab in
  if 0 <=? j then (a * 10 ^ j, b) else (a, b * 10 ^ (- j)).

(** The [n] with [10^(n-1) <= a/b < 10^n]. *)
Definition dec_exponent (ab : Z * Z) : Z :=
  let '(a, b) := ab in
  if b <=? a then dec_len (a / b)
  else
    let j := dec_len (b / a) in
    if b <=? a * 10 ^ (j - 1) then 2 - j else 1 - j.

(** The candidates with [k] digits: the two neighbours of [x * 10^(k-n)],
    the closer one first (the even one on a tie), each kept only when it
    reads back as [x]. *)
Definition digit_candidates (x : number) (ab : Z * Z) (n k : Z) : list (Z * Z) :=
  let '(a, b) := scale10 ab (k - n) in
  let lo := a / b in
  let hi := lo + 1 in
  let r := a mod b in
  let norm s := if s =? 10 ^ k then (10 ^ (k - 1), n + 1) else (s, n) in
  let ordered :=
    match 2 * r ?= b with
    | Lt => [lo; hi]
    | Gt => [hi; lo]
    | Eq => if Z.even lo then [lo; hi] else [hi; lo]
    end in
  filter (fun sn => Is_true (num_eqb (num_of_decimal (fst sn) (snd sn - k)) x))
         (map norm ordered).

Fixpoint shortest_digits (x : number) (ab : Z * Z) (n : Z) (k : Z) (fuel : nat)
  : option (Z * Z * Z) :=
  match fuel with
  | O => None
  | S fuel' =>
      match digit_candidates x ab n k with
      | (s, n') :: _ => Some (n', k, s)
      | [] => shortest_digits x ab n (k + 1) fuel'
      end
  end.

Fixpoint zeros (n : nat) : string :=
  match n with
  | O => ""
  | S n' => "0" +:+ zeros n'
  end.

Definition str_take (n : Z) (s : string) : string := substring 0 (Z.to_nat n) s.
Definition str_drop (n : Z) (s : string) : string :=
  substring (Z.to_nat n) (String.length s - Z.to_nat n) s.

Definition format_digits (n k s : Z) : string :=
  let ds := digits_of_Z s in
  if (k <=? n) && (n <=? 21) then ds +:+ zeros (Z.to_nat (n - k))
  else if (0 <? n) && (n <=? 21) then str_take n ds +:+ "." +:+ str_drop n ds
  else if (-6 <? n) && (n <=? 0) then "0." +:+ zeros (Z.to_nat (- n)) +:+ ds
  else
    let e := n - 1 in
    let es := (if e <? 0 then "-" else "+") +:+ digits_of_Z (Z.abs e) in
    if k =? 1 then ds +:+ "e" +:+ es
    else str_take 1 ds +:+ "." +:+ str_drop 1 ds +:+ "e" +:+ es.

Definition Number_toString (x : number) : string :=
  match x with
  | S754_nan => "NaN"
  | S754_zero _ => "0"
  | S754_infinity s => if s then "-Infinity" else "Infinity"
  | S754_finite s m e =>
      let ab := frac_of m e in
      let body :=
        match shortest_digits (S754_finite false m e) ab (dec_exponent ab) 1 17 with
        | Some (n, k, d) => format_digits n k d
        | None => "NaN"
        end in
      if s then "-" +:+ body else body
  end.

(** *** parseFloat

    ECMA-262, 19.2.4: leading white space is skipped, then the longest
    prefix that is a [StrDecimalLiteral] is read; when there is none the
    result is NaN. *)

Definition is_digit (c : ascii) : bool :=
  let n := N_of_ascii c in ((48 <=? n) && (n <=? 57))%N.

Definition is_white (c : ascii) : bool :=
  let n := N_of_ascii c in
  ((n =? 32) || (n =? 9) || (n =? 10) || (n =? 11) || (n =? 12) || (n =? 13))%N.

Fixpoint trim_start (s : string) : string :=
  match s with
  | String c r => if is_white c then trim_start r else s
  | EmptyString => s
  end.

(** The longest prefix of decimal digits, and what follows it. *)
Fixpoint span_digits (s : string) : string * string :=
  match s with
  | String c r =>
      if is_digit c then let '(d, r') := span_digits r in (String c d, r')
      else (EmptyString, s)
  | EmptyString => (EmptyString, EmptyString)
  end.

Definition digit_val (c : ascii) : Z := Z.of_N (N_of_ascii c) - 48.

Fixpoint digits_value_from (acc : Z) (s : string) : Z :=
  match s with
  | String c r => digits_value_from (10 * acc + digit_val c) r
  | EmptyString => acc
  end.

Definition digits_value : string -> Z := digits_value_from 0.

Definition read_sign (s : string) : bool * string :=
  match s with
  | String "-" r => (true, r)
  | String "+" r => (false, r)
  | _ => (false, s)
  end.

(** The value of an [ExponentPart] at the head of [s]; 0 when there is
    none. *)
Definition read_exponent (s : string) : Z :=
  match s with
  | String c r =>
      if (Ascii.eqb c "e" || Ascii.eqb c "E")%bool then
        let '(neg, r') := read_sign r in
        let '(ds, _) := span_digits r' in
        match ds with
        | EmptyString => 0
        | _ => if neg then - digits_value ds else digits_value ds
        end
      else 0
  | EmptyString => 0
  end.

Definition parseFloat (input : string) : number :=
  let '(neg, s) := read_sign (trim_start input) in
  let sign (x : number) := if neg then num_neg x else x in
  if String.prefix "Infinity" s then S754_infinity neg
  else
    let '(ip, r1) := span_digits s in
    let '(fp, r2) :=
      match r1 with
      | String "." r => span_digits r
      | _ => (EmptyString, r1)
      end in
    match ip +:+ fp with
    | EmptyString => NaN
    | ds =>
        sign (num_of_decimal (digits_value ds)
                             (read_exponent r2 - Z.of_nat (String.length fp)))
    end.

(** *** Values and objects

    An object is the list of its own enumerable string-keyed properties,
    in the order [OrdinaryOwnPropertyKeys] gives (ECMA-262, 10.1.11.1):
    array indices in ascending order first, then the other keys in the
    order they were created.  Inherited properties are not modelled: the
    theme reads objects only at keys of their own ([keyof typeof ...]). *)

#[warnings="-register-all"] Inductive Value : Type :=
  | VUndef
  | VBool (b : bool)
  | VNum (n : number)
  | VStr (s : string)
  | VObj (fields : list (string * Value)).

Definition JsObject : Type := list (string * Value).

(** ToString, as used by string concatenation and template literals. *)
Definition ToString (v : Value) : string :=
  match v with
  | VUndef => "undefined"
  | VBool b => if b then "true" else "false"
  | VNum n => Number_toString n
  | VStr s => s
  | VObj _ => "[object Object]"
  end.

(** A property key that is an array index: a canonical numeric string
    below [2^32 - 1]. *)
Definition array_index (k : string) : option Z :=
  let '(ds, rest) := span_digits k in
  let n := digits_value ds in
  if String.eqb rest "" && negb (String.eqb ds "")
     && String.eqb (digits_of_Z n) ds && (n <? 2 ^ 32 - 1)
  then Some n else None.

Fixpoint obj_get (o : JsObject) (k : string) : option Value :=
  match o with
  | [] => None
  | (k', v) :: o' => if String.eqb k' k then Some v else obj_get o' k
  end.

(** [o[k]]: a missing property reads as [undefined]. *)
Definition obj_read (o : JsObject) (k : string) : Value :=
  match obj_get o k with
  | Some v => v
  | None => VUndef
  end.

(** [k in o], for own properties. *)
Definition obj_has (o : JsObject) (k : string) : bool :=
  match obj_get o k with
  | Some _ => true
  | None => false
  end.

(** Assignment to an existing property keeps its place. *)
Fixpoint obj_update (o : JsObject) (k : string) (v : Value) : JsObject :=
  match o with
  | [] => []
  | (k', v') :: o' =>
      if String.eqb k' k then (k', v) :: o' else (k', v') :: obj_update o' k v
  end.

(** A new array index goes before the first larger index and before every
    other key. *)
Fixpoint obj_add_index (o : JsObject) (i : Z) (k : string) (v : Value) : JsObject :=
  match o with
  | [] => [(k, v)]
  | (k', v') :: o' =>
      match array_index k' with
      | Some j => if j <? i then (k', v') :: obj_add_index o' i k v
                  else (k, v) :: o
      | None => (k, v) :: o
      end
  end.

Definition obj_add (o : JsObject) (k : string) (v : Value) : JsObject :=
  match array_index k with
  | Some i => obj_add_index o i k v
  | None => o ++ [(k, v)]
  end.

(** [o[k] = v]. *)
Definition obj_set (o : JsObject) (k : string) (v : Value) : JsObject :=
  if obj_has o k then obj_update o k v else obj_add o k v.

(** [{...target, ...src}]: the properties of [src] are set in order. *)
Definition obj_spread (target src : JsObject) : JsObject :=
  fold_left (fun o kv => obj_set o (fst kv) (snd kv)) src target.

(** The members of an object literal. *)
Inductive Member : Type :=
  | Field (k : string) (v : Value)
  | Spread (src : JsObject).

Definition obj_member (o : JsObject) (m : Member) : JsObject :=
  match m with
  | Field k v => obj_set o k v
  | Spread src => obj_spread o src
  end.

Definition obj_literal (ms : list Member) : JsObject := fold_left obj_member ms [].

Definition Object_keys (o : JsObject) : list string := map fst o.
Definition Object_entries (o : JsObject) : list (string * Value) := o.
Definition Object_fromEntries (es : list (string * Value)) : JsObject :=
  obj_spread [] es.

(** [Array.prototype.indexOf] on an array of strings: the first index
    holding [x], and [-1] when there is none. *)
Fixpoint indexOf_from (i : Z) (l : list string) (x : string) : Z :=
  match l with
  | [] => -1
  | y :: l' => if String.eqb y x then i else indexOf_from (i + 1) l' x
  end.

Definition indexOf : list string -> string -> Z := indexOf_from 0.

(** [l[i]]: out of range reads as [undefined]. *)
Definition array_read (l : list string) (i : Z) : Value :=
  if i <? 0 then VUndef
  else match l !! Z.to_nat i with
       | Some s => VStr s
       | None => VUndef
       end.

(** *** [String.prototype.match] with the pattern [/[^0-9.]+/]

    The first longest run of characters that are neither a digit nor a
    dot; [None] stands for the [null] of a failed match. *)
Definition is_numeric_char (c : ascii) : bool :=
  is_digit c || Ascii.eqb c ".".

Fixpoint take_non_numeric (s : string) : string :=
  match s with
  | String c r => if is_numeric_char c then EmptyString
                  else String c (take_non_numeric r)
  | EmptyString => EmptyString
  end.

Fixpoint match_non_numeric (s : string) : option string :=
  match s with
  | String c r => if is_numeric_char c then match_non_numeric r
                  else Some (take_non_numeric s)
  | EmptyString => None
  end.

(** *** Completions

    A call returns normally or throws. *)
Inductive Thrown : Type :=
  | Error (message : string)
  | TypeError (message : string).

Inductive completion (A : Type) : Type :=
  | Normal (a : A)
  | Throw (e : Thrown).
Arguments Normal {A} a.
Arguments Throw {A} e.

End JS.

Import JS.

(** ** The theme module *)

(** *** The compiling context

    [interface MacroContext { addAsset(asset: {type, content}): void }]:
    the bundler's handle through which a macro contributes assets.  The
    receiver of a helper is [MacroContext | void]: the handle when the
    helper runs as a macro, and nothing on a plain call. *)

Record Asset : Type := { asset_type : string; asset_content : string }.

Inductive MacroContext : Type := macro_context.

Definition Receiver : Type := option MacroContext.

(** *** The token macros

    [colorScale] and [simpleColorScale] are imported from [./tokens]; the
    theme is a function of what they return. *)

Record Tokens : Type := {
  colorScale : string -> JsObject;
  simpleColorScale : string -> JsObject
}.

(** *** Unit conversion *)

Definition pxToRem (px : string + number) : string :=
  let px := match px with
            | inl s => parseFloat s
            | inr n => n
            end in
  Number_toString (num_div px (num_of_Z 16)) +:+ "rem".

(** *** The palette *)

Definition color (tk : Tokens) : JsObject :=
  obj_literal [
    Field "transparent" (VStr "transparent");
    Field "black" (VStr "black");
    Field "white" (VStr "white");

    Spread (colorScale tk "gray");
    Spread (colorScale tk "blue");
    Spread (colorScale tk "red");
    Spread (colorScale tk "orange");
    Spread (colorScale tk "yellow");
    Spread (colorScale tk "chartreuse");
    Spread (colorScale tk "celery");
    Spread (colorScale tk "green");
    Spread (colorScale tk "seafoam");
    Spread (colorScale tk "cyan");
    Spread (colorScale tk "indigo");
    Spread (colorScale tk "purple");
    Spread (colorScale tk "fuchsia");
    Spread (colorScale tk "magenta");
    Spread (colorScale tk "pink");
    Spread (colorScale tk "turquoise");
    Spread (colorScale tk "brown");
    Spread (colorScale tk "silver");
    Spread (colorScale tk "cinnamon");

    Spread (colorScale tk "accent-color");
    Spread (colorScale tk "informative-color");
    Spread (colorScale tk "negative-color");
    Spread (colorScale tk "notice-color");
    Spread (colorScale tk "positive-color");

    Spread (simpleColorScale tk "transparent-white");
    Spread (simpleColorScale tk "transparent-black");

    Field "Background" (VStr "Background");
    Field "ButtonBorder" (VStr "ButtonBorder");
    Field "ButtonFace" (VStr "ButtonFace");
    Field "ButtonText" (VStr "ButtonText");
    Field "Field" (VStr "Field");
    Field "Highlight" (VStr "Highlight");
    Field "HighlightText" (VStr "HighlightText");
    Field "GrayText" (VStr "GrayText");
    Field "Mark" (VStr "Mark");
    Field "LinkText" (VStr "LinkText")
  ].

(** *** The spacing tables *)

Definition generateSpacing (px : list number) : JsObject :=
  fold_left
    (fun res p => obj_set res (Number_toString p) (VStr (pxToRem (inr p))))
    px [].

Definition baseSpacing : JsObject :=
  generateSpacing (map num_of_Z [
    0; 4; 8; 12; 16; 20; 24; 28; 32; 36; 40; 44; 48; 56;
    64; 80; 96;
    112; 128; 144; 160; 176; 192; 208; 224; 240; 256; 288; 320; 384
  ]).

Definition negativeSpacing : JsObject :=
  generateSpacing (map num_of_Z [
    -4; -8; -12; -16; -20; -24; -28; -32; -36; -40; -44; -48; -56;
    -64; -80; -96;
    -112; -128; -144; -160; -176; -192; -208; -224; -240; -256; -288; -320; -384
  ]).

(** *** The module's shared objects

    [color], [baseSpacing] and [negativeSpacing] are objects created once,
    when the module is loaded, and read by the helpers at every call.  A
    [const] binding does not freeze the object it names, so the helpers
    are embedded as computations over the store that holds these objects
    (and the assets handed to the compiling context): a helper that wrote
    to one of them would return a different store. *)

Record Store : Type := {
  st_color : JsObject;
  st_baseSpacing : JsObject;
  st_negativeSpacing : JsObject;
  st_assets : list Asset
}.

(** The store after the module has been loaded. *)
Definition initial (tk : Tokens) : Store :=
  {| st_color := color tk;
     st_baseSpacing := baseSpacing;
     st_negativeSpacing := negativeSpacing;
     st_assets := [] |}.

Definition M (A : Type) : Type := Store -> completion A * Store.

Definition ret {A} (a : A) : M A := fun st => (Normal a, st).

Definition throw {A} (e : Thrown) : M A := fun st => (Throw e, st).

Definition bind {A B} (m : M A) (k : A -> M B) : M B :=
  fun st =>
    match m st with
    | (Normal a, st') => k a st'
    | (Throw e, st') => (Throw e, st')
    end.

Definition read {A} (f : Store -> A) : M A := fun st => (Normal (f st), st).

Notation "'let*' x ':=' m 'in' k" := (bind m (fun x => k))
  (at level 10, x name, m at level 100, k at level 200).

(** *** The helpers *)

Definition baseColor (base : string) : M JsObject :=
  let* palette := read st_color in
  let keys := Object_keys palette in
  let index := indexOf keys base in
  if index =? -1 then throw (Error ("Invalid base color " +:+ base))
  else
    ret (obj_literal [
      Field "default" (VStr base);
      Field "isHovered" (array_read keys (index + 1));
      Field "isFocusVisible" (array_read keys (index + 1));
      Field "isPressed" (array_read keys (index + 1))
    ]).

(** [lightDark] declares no receiver and does not mention [this]; the
    receiver of the call is an argument here so that the two ways of
    calling it can be told apart. *)
Definition lightDark (this : Receiver) (light dark : string) : M string :=
  let* palette := read st_color in
  ret ("[light-dark(" +:+ ToString (obj_read palette light) +:+ ", "
       +:+ ToString (obj_read palette dark) +:+ ")]").

Definition arbitrary (ctx : Receiver) (value : string) : string :=
  match ctx with
  | Some _ => "[" +:+ value +:+ "]"
  | None => value
  end.

(** [baseFontSize = 14]: an absent argument takes the default. *)
Definition fontRelative (this : Receiver) (base : number)
    (baseFontSize : option number) : string :=
  let baseFontSize := match baseFontSize with
                      | Some n => n
                      | None => num_of_Z 14
                      end in
  arbitrary this (Number_toString (num_div base baseFontSize) +:+ "em").

Definition edgeToText (this : Receiver) (height : number) : M string :=
  let* spacing := read st_baseSpacing in
  ret ("calc(" +:+ ToString (obj_read spacing (Number_toString height))
       +:+ " * 3 / 8)").

Definition space (this : Receiver) (px : number) : string :=
  arbitrary this (pxToRem (inr px)).

(** The literal [1.25]. *)
Definition num_1_25 : number := num_of_decimal 125 (-2).

Definition size (this : Receiver) (px : number) : JsObject :=
  obj_literal [
    Field "default" (VStr (arbitrary this (pxToRem (inr px))));
    Field "touch" (VStr (arbitrary this (pxToRem (inr (num_mul px num_1_25)))))
  ].

(** *** The touch-scaled spacing table

    [v.match(...)![0]] throws a [TypeError] when the match fails, and so
    does [v.match] on a value that is not a string. *)

Definition scaled_entry (kv : string * Value) : completion (string * Value) :=
  let '(k, v) := kv in
  match v with
  | VStr s =>
      match match_non_numeric s with
      | Some unit =>
          Normal (k, VObj (obj_literal [
            Field "default" v;
            Field "touch"
              (VStr (Number_toString (num_mul (parseFloat s) num_1_25) +:+ unit))
          ]))
      | None => Throw (TypeError "Cannot read properties of null (reading '0')")
      end
  | _ => Throw (TypeError "v.match is not a function")
  end.

(** [Array.prototype.map] with a callback that may throw. *)
Fixpoint array_map {A B} (f : A -> completion B) (l : list A) : completion (list B) :=
  match l with
  | [] => Normal []
  | x :: l' =>
      match f x with
      | Throw e => Throw e
      | Normal y =>
          match array_map f l' with
          | Throw e => Throw e
          | Normal ys => Normal (y :: ys)
          end
      end
  end.

Definition scaledSpacing : completion JsObject :=
  match array_map scaled_entry (Object_entries baseSpacing) with
  | Normal es => Normal (Object_fromEntries es)
  | Throw e => Throw e
  end.

(** *** Shorthands

    A shorthand is a list of the properties it stands for, or a function
    from its value to the declarations it stands for. *)

Inductive Shorthand : Type :=
  | Longhands (properties : list string)
  | Expansion (fn : Value -> JsObject).

Definition shorthands : list (string * Shorthand) := [
  ("padding", Longhands ["paddingTop"; "paddingBottom"; "paddingStart"; "paddingEnd"]);
  ("paddingX", Longhands ["paddingStart"; "paddingEnd"]);
  ("paddingY", Longhands ["paddingTop"; "paddingBottom"]);
  ("margin", Longhands ["marginTop"; "marginBottom"; "marginStart"; "marginEnd"]);
  ("marginX", Longhands ["marginStart"; "marginEnd"]);
  ("marginY", Longhands ["marginTop"; "marginBottom"]);
  ("scrollPadding", Longhands ["scrollPaddingTop"; "scrollPaddingBottom"; "scrollPaddingStart"; "scrollPaddingEnd"]);
  ("scrollPaddingX", Longhands ["scrollPaddingStart"; "scrollPaddingEnd"]);
  ("scrollPaddingY", Longhands ["scrollPaddingTop"; "scrollPaddingBottom"]);
  ("scrollMargin", Longhands ["scrollMarginTop"; "scrollMarginBottom"; "scrollMarginStart"; "scrollMarginEnd"]);
  ("scrollMarginX", Longhands ["scrollMarginStart"; "scrollMarginEnd"]);
  ("scrollMarginY", Longhands ["scrollMarginTop"; "scrollMarginBottom"]);
  ("borderWidth", Longhands ["borderTopWidth"; "borderBottomWidth"; "borderStartWidth"; "borderEndWidth"]);
  ("borderXWidth", Longhands ["borderStartWidth"; "borderEndWidth"]);
  ("borderYWidth", Longhands ["borderTopWidth"; "borderBottomWidth"]);
  ("borderRadius", Longhands ["borderTopStartRadius"; "borderTopEndRadius"; "borderBottomStartRadius"; "borderBottomEndRadius"]);
  ("borderTopRadius", Longhands ["borderTopStartRadius"; "borderTopEndRadius"]);
  ("borderBottomRadius", Longhands ["borderBottomStartRadius"; "borderBottomEndRadius"]);
  ("borderStartRadius", Longhands ["borderTopStartRadius"; "borderBottomStartRadius"]);
  ("borderEndRadius", Longhands ["borderTopEndRadius"; "borderBottomEndRadius"]);
  ("translate", Longhands ["translateX"; "translateY"]);
  ("inset", Longhands ["top"; "bottom"; "insetStart"; "insetEnd"]);
  ("insetX", Longhands ["insetStart"; "insetEnd"]);
  ("insetY", Longhands ["top"; "bottom"]);
  ("placeItems", Longhands ["alignItems"; "justifyItems"]);
  ("placeContent", Longhands ["alignContent"; "justifyContent"]);
  ("placeSelf", Longhands ["alignSelf"; "justifySelf"]);
  ("gap", Longhands ["rowGap"; "columnGap"]);
  ("size", Longhands ["width"; "height"]);
  ("minSize", Longhands ["minWidth"; "minHeight"]);
  ("maxSize", Longhands ["maxWidth"; "maxHeight"]);
  ("overflow", Longhands ["overflowX"; "overflowY"]);
  ("overscrollBehavior", Longhands ["overscrollBehaviorX"; "overscrollBehaviorY"]);
  ("gridArea", Longhands ["gridColumnStart"; "gridColumnEnd"; "gridRowStart"; "gridRowEnd"]);
  ("transition", Expansion (fun value => obj_literal [
     Field "transition" value;
     Field "transitionDuration" (VNum (num_of_Z 150));
     Field "transitionTimingFunction" (VStr "default")
   ]));
  ("animation", Expansion (fun value => obj_literal [
     Field "animation" value;
     Field "animationDuration" (VNum (num_of_Z 150));
     Field "animationTimingFunction" (VStr "default")
   ]));
  ("truncate", Expansion (fun _value => obj_literal [
     Field "overflowX" (VStr "hidden");
     Field "overflowY" (VStr "hidden");
     Field "textOverflow" (VStr "ellipsis");
     Field "whiteSpace" (VStr "nowrap")
   ]))
].

(** *** Conditions *)

Definition conditions : list (string * string) := [
  ("forcedColors", "@media (forced-colors: active)");
  ("touch", "@media not ((hover: hover) and (pointer: fine))");
  ("sm", "@media (min-width: 640px)");
  ("md", "@media (min-width: 768px)");
  ("lg", "@media (min-width: 1024px)");
  ("xl", "@media (min-width: 1280px)");
  ("2xl", "@media (min-width: 1536px)")
].

(** The entry of a table under a name. *)
Fixpoint table_get {A} (t : list (string * A)) (name : string) : option A :=
  match t with
  | [] => None
  | (k, a) :: t' => if String.eqb k name then Some a else table_get t' name
  end.

(** The position of a name in a table, in declaration order. *)
Fixpoint table_position {A} (t : list (string * A)) (name : string) : option nat :=
  match t with
  | [] => None
  | (k, _) :: t' =>
      if String.eqb k name then Some O else S <$> table_position t' name
  end.

(** The threshold of a media query of the form
    [@media (min-width: <n>px)], in pixels. *)
Fixpoint drop_prefix (p s : string) : option string :=
  match p, s with
  | EmptyString, _ => Some s
  | String a p', String b s' => if Ascii.eqb a b then drop_prefix p' s' else None
  | String _ _, EmptyString => None
  end.

Definition min_width (media : string) : option Z :=
  match drop_prefix "@media (min-width: " media with
  | Some r =>
      let '(ds, rest) := span_digits r in
      if String.eqb rest "px)" && negb (String.eqb ds "")
      then Some (digits_value ds) else None
  | None => None
  end.

(** The breakpoints: the conditions that are min-width thresholds, in
    declaration order. *)
Definition breakpoints : list (string * Z) :=
  omap (fun c => match min_width (snd c) with
                 | Some w => Some (fst c, w)
                 | None => None
                 end) conditions.

(** *** Arbitrary properties *)

(** Modelled from the spec: [createArbitraryProperty] is defined in
    [./style-macro], which is not among the sources.  Following section
    4.1 and the design notes, an arbitrary property passes the value and
    the name of the property to its transform, whose result is the
    mapping of declarations; without a transform the value is declared
    under the property itself. *)
Definition createArbitraryProperty (fn : option (Value -> string -> JsObject))
  : Value -> string -> JsObject :=
  fun value property =>
    match fn with
    | Some f => f value property
    | None => obj_literal [Field property value]
    end.

Definition outlineOffset : Value -> string -> JsObject :=
  createArbitraryProperty
    (Some (fun v property => obj_literal [Field property (VStr (ToString v +:+ "px"))])).

(** ** Parts modelled from the specification *)

(** Modelled from the spec: the token source ([./tokens]) is not among the
    sources and section 6 gives its interface only.  [sample_tokens] is a
    stand-in on which the definitions can be run: every colour scale has
    the steps listed, each bound to a reference to the token. *)
Definition sample_scale (steps : list string) (scale : string) : JsObject :=
  Object_fromEntries
    (map (fun step =>
            let name := scale +:+ "-" +:+ step in
            (name, VStr ("var(--" +:+ name +:+ ")")))
         steps).

Definition sample_tokens : Tokens :=
  {| colorScale := sample_scale
       ["100"; "200"; "300"; "400"; "500"; "600"; "700"; "800"; "900";
        "1000"; "1100"; "1200"; "1300"; "1400"; "1500"; "1600"];
     simpleColorScale := sample_scale
       ["25"; "50"; "75"; "100"; "200"; "300"; "400"; "500"; "600";
        "700"; "800"; "900"; "1000"] |}.

(** Modelled from the spec: the shorthand expander (section 4.3) belongs
    to [./style-macro].  A list-form shorthand gives every listed property
    the value unchanged; a function-form shorthand is applied to the value
    and its result is taken as it is. *)
Definition expand (name : string) (value : Value) : option JsObject :=
  match table_get shorthands name with
  | Some (Longhands properties) =>
      Some (Object_fromEntries (map (fun p => (p, value)) properties))
  | Some (Expansion fn) => Some (fn value)
  | None => None
  end.

(** Modelled from the spec: the declarations of a style call (section
    4.3).  The keys of the style object are taken in order; a shorthand is
    expanded where it stands, and a later write to a property replaces an
    earlier one. *)
Definition declare (decls : JsObject) (kv : string * Value) : JsObject :=
  match expand (fst kv) (snd kv) with
  | Some expansion => obj_spread decls expansion
  | None => obj_set decls (fst kv) (snd kv)
  end.

Definition declarations (style : JsObject) : JsObject :=
  fold_left declare style [].

(** Modelled from the spec: the rule cache and the order of emission
    (sections 3, 4.2 and 4.5) belong to [./style-macro].  The precedence
    rank of a condition is its place in the declaration order of
    [conditions], and a rule gated by no condition comes first.  A
    condition that is not registered is an error.  [flush] emits the rules
    by ascending precedence, and by order of insertion among rules of the
    same precedence.  The spec gives the rank of a single condition only;
    for a rule gated by several, the model takes the highest of their
    ranks. *)
Record CompiledRule : Type := {
  rule_property : string;
  rule_value : string;
  rule_conditions : list string;
  rule_precedence : nat;
  rule_index : nat
}.

Fixpoint precedence (conds : list string) : option nat :=
  match conds with
  | [] => Some O
  | c :: conds' =>
      match table_position conditions c, precedence conds' with
      | Some i, Some p => Some (Nat.max (S i) p)
      | _, _ => None
      end
  end.

Definition same_signature (property value : string) (conds : list string)
    (r : CompiledRule) : bool :=
  String.eqb (rule_property r) property && String.eqb (rule_value r) value
  && bool_decide (rule_conditions r = conds).

(** [compile]: a signature that is in the cache is not inserted again. *)
Definition compile (cache : list CompiledRule) (property value : string)
    (conds : list string) : option (list CompiledRule) :=
  match precedence conds with
  | None => None
  | Some p =>
      if existsb (same_signature property value conds) cache then Some cache
      else Some (cache ++ [{| rule_property := property;
                              rule_value := value;
                              rule_conditions := conds;
                              rule_precedence := p;
                              rule_index := length cache |}])
  end.

Fixpoint compile_all (cache : list CompiledRule)
    (requests : list (string * string * list string)) : option (list CompiledRule) :=
  match requests with
  | [] => Some cache
  | (property, value, conds) :: requests' =>
      match compile cache property value conds with
      | Some cache' => compile_all cache' requests'
      | None => None
      end
  end.

Definition emitted_before (a b : CompiledRule) : Prop :=
  (rule_precedence a < rule_precedence b)%nat
  \/ (rule_precedence a = rule_precedence b /\ (rule_index a <= rule_index b)%nat).

#[local] Instance emitted_before_dec : RelDecision emitted_before.
Proof. intros a b. unfold emitted_before. apply _. Defined.

Definition flush (cache : list CompiledRule) : list CompiledRule :=
  merge_sort emitted_before cache.

(** ** Calls of the helpers

    A call names a helper, its receiver where it has one, and its
    arguments; [run] is the call. *)
Inductive HelperCall : Type :=
  | Call_pxToRem (px : string + number)
  | Call_fontRelative (this : Receiver) (base : number) (baseFontSize : option number)
  | Call_edgeToText (this : Receiver) (height : number)
  | Call_space (this : Receiver) (px : number)
  | Call_size (this : Receiver) (px : number)
  | Call_lightDark (this : Receiver) (light dark : string)
  | Call_baseColor (base : string).

Definition run (c : HelperCall) : M Value :=
  match c with
  | Call_pxToRem px => ret (VStr (pxToRem px))
  | Call_fontRelative this base baseFontSize =>
      ret (VStr (fontRelative this base baseFontSize))
  | Call_edgeToText this height =>
      let* s := edgeToText this height in ret (VStr s)
  | Call_space this px => ret (VStr (space this px))
  | Call_size this px => ret (VObj (size this px))
  | Call_lightDark this light dark =>
      let* s := lightDark this light dark in ret (VStr s)
  | Call_baseColor base =>
      let* o := baseColor base in ret (VObj o)
  end.

(** A sequence of calls, one after the other on the same store; a call
    that throws does not stop the ones after it (each is a call of its
    own). *)
Fixpoint run_all (cs : list HelperCall) (st : Store)
  : list (completion Value) * Store :=
  match cs with
  | [] => ([], st)
  | c :: cs' =>
      let '(r, st') := run c st in
      let '(rs, st'') := run_all cs' st' in
      (r :: rs, st'')
  end.

(** The store in which the palette has been replaced. *)
Definition with_color (st : Store) (palette : JsObject) : Store :=
  {| st_color := palette;
     st_baseSpacing := st_baseSpacing st;
     st_negativeSpacing := st_negativeSpacing st;
     st_assets := st_assets st |}.

(** The record [baseColor] returns for [base] when [next] is what it read
    at the following position of the palette. *)
Definition interaction_states (base : string) (next : Value) : JsObject :=
  [("default", VStr base); ("isHovered", next);
   ("isFocusVisible", next); ("isPressed", next)].

(** The shape [`[${string}]`] of an arbitrary-value marker. *)
Fixpoint ends_with_bracket (s : string) : bool :=
  match s with
  | EmptyString => false
  | String c EmptyString => Ascii.eqb c "]"
  | String _ r => ends_with_bracket r
  end.

Definition is_marker (s : string) : bool :=
  match s with
  | String c r => Ascii.eqb c "[" && ends_with_bracket r
  | EmptyString => false
  end.

(** A length in rem, as [pxToRem] writes it. *)
Definition rem_of (d : number) : string := Number_toString d +:+ "rem".

(** The entry of the touch-scaled table for the length [d] rem. *)
Definition scaled (d : number) : Value :=
  VObj [("default", VStr (rem_of d)); ("touch", VStr (rem_of (num_mul d num_1_25)))].

(** The mapping the [transition] shorthand stands for. *)
Definition transition_declarations (v : Value) : JsObject :=
  [("transition", v);
   ("transitionDuration", VNum (num_of_Z 150));
   ("transitionTimingFunction", VStr "default")].

(** Every rule of a cache filled by [compile] carries the precedence of
    its conditions. *)
Definition ranked (cache : list CompiledRule) : Prop :=
  Forall (fun r => precedence (rule_conditions r) = Some (rule_precedence r)) cache.

(** ** The rest of the theme *)

(** *** The other spacing and sizing tables

    The helpers called while the module is loaded ([fontRelative(10)],
    [size(32)]) are plain calls, without a receiver. *)

Definition spacing : JsObject :=
  obj_literal [
    Spread baseSpacing;
    Field "text-to-control" (VStr (fontRelative None (num_of_Z 10) None));
    Field "text-to-visual" (VObj (obj_literal [
      Field "default" (VStr (fontRelative None (num_of_Z 6) None));
      Field "touch" (VStr (fontRelative None (num_of_Z 8) (Some (num_of_Z 17))))
    ]));
    Field "edge-to-text" (VStr "calc(self(height, self(minHeight)) * 3 / 8)");
    Field "pill" (VStr "calc(self(height, self(minHeight)) / 2)")
  ].

Definition sizing : completion JsObject :=
  match scaledSpacing with
  | Throw e => Throw e
  | Normal scaledSpacing =>
      Normal (obj_literal [
        Spread scaledSpacing;
        Field "auto" (VStr "auto");
        Field "full" (VStr "100%");
        Field "screen" (VStr "100vh");
        Field "min" (VStr "min-content");
        Field "max" (VStr "max-content");
        Field "fit" (VStr "fit-content");
        Field "control" (VObj (obj_literal [
          Field "default" (VObj (size None (num_of_Z 32)));
          Field "size" (VObj (obj_literal [
            Field "XS" (VObj (size None (num_of_Z 20)));
            Field "S" (VObj (size None (num_of_Z 24)));
            Field "L" (VObj (size None (num_of_Z 40)));
            Field "XL" (VObj (size None (num_of_Z 48)))
          ]))
        ]));
        Field "control-sm" (VObj (obj_literal [
          Field "default" (VObj (size None (num_of_Z 16)));
          Field "size" (VObj (obj_literal [
            Field "S" (VObj (size None (num_of_Z 14)));
            Field "L" (VObj (size None (num_of_Z 18)));
            Field "XL" (VObj (size None (num_of_Z 20)))
          ]))
        ]))
      ])
  end.

Definition margin : JsObject :=
  obj_literal [Spread spacing; Spread negativeSpacing; Field "auto" (VStr "auto")].

Definition inset : JsObject :=
  obj_literal [Spread baseSpacing; Field "auto" (VStr "auto"); Field "full" (VStr "100%")].

Definition translate : JsObject :=
  obj_literal [Spread baseSpacing; Spread negativeSpacing; Field "full" (VStr "100%")].

(** The members of the palette literal, as [color] lists them. *)
Definition color_members (tk : Tokens) : list Member := [
  Field "transparent" (VStr "transparent");
  Field "black" (VStr "black");
  Field "white" (VStr "white");
  Spread (colorScale tk "gray");
  Spread (colorScale tk "blue");
  Spread (colorScale tk "red");
  Spread (colorScale tk "orange");
  Spread (colorScale tk "yellow");
  Spread (colorScale tk "chartreuse");
  Spread (colorScale tk "celery");
  Spread (colorScale tk "green");
  Spread (colorScale tk "seafoam");
  Spread (colorScale tk "cyan");
  Spread (colorScale tk "indigo");
  Spread (colorScale tk "purple");
  Spread (colorScale tk "fuchsia");
  Spread (colorScale tk "magenta");
  Spread (colorScale tk "pink");
  Spread (colorScale tk "turquoise");
  Spread (colorScale tk "brown");
  Spread (colorScale tk "silver");
  Spread (colorScale tk "cinnamon");
  Spread (colorScale tk "accent-color");
  Spread (colorScale tk "informative-color");
  Spread (colorScale tk "negative-color");
  Spread (colorScale tk "notice-color");
  Spread (colorScale tk "positive-color");
  Spread (simpleColorScale tk "transparent-white");
  Spread (simpleColorScale tk "transparent-black");
  Field "Background" (VStr "Background");
  Field "ButtonBorder" (VStr "ButtonBorder");
  Field "ButtonFace" (VStr "ButtonFace");
  Field "ButtonText" (VStr "ButtonText");
  Field "Field" (VStr "Field");
  Field "Highlight" (VStr "Highlight");
  Field "HighlightText" (VStr "HighlightText");
  Field "GrayText" (VStr "GrayText");
  Field "Mark" (VStr "Mark");
  Field "LinkText" (VStr "LinkText")
].

(** The properties a list of members writes, in the order of writing. *)
Definition member_entries (m : Member) : list (string * Value) :=
  match m with
  | Field k v => [(k, v)]
  | Spread src => src
  end.

Definition written (ms : list Member) : list (string * Value) :=
  concat (map member_entries ms).

(** The keys of [ks] that are not in [seen], each at its first occurrence. *)
Fixpoint fresh_keys (seen : list string) (ks : list string) : list string :=
  match ks with
  | [] => []
  | k :: ks' =>
      if bool_decide (k ∈ seen) then fresh_keys seen ks'
      else k :: fresh_keys (seen ++ [k]) ks'
  end.

(** *** Grid tracks

    [value in baseSpacing] also holds for the names an object inherits
    from [Object.prototype]; what is read then is a built-in, whose text
    the model does not spell out. *)

Definition Object_prototype : list string := [
  "constructor"; "__defineGetter__"; "__defineSetter__"; "hasOwnProperty";
  "__lookupGetter__"; "__lookupSetter__"; "isPrototypeOf";
  "propertyIsEnumerable"; "toString"; "valueOf"; "__proto__"; "toLocaleString"
].

Inductive Track : Type :=
  | Plain (v : Value)
  | Builtin (name : string).

(** A property key made of a string or a number. *)
Definition key_of (value : string + number) : string :=
  match value with
  | inl s => s
  | inr n => Number_toString n
  end.

Definition value_of (value : string + number) : Value :=
  match value with
  | inl s => VStr s
  | inr n => VNum n
  end.

Definition gridTrackSize (value : string + number) : M Track :=
  let* spacing := read st_baseSpacing in
  let k := key_of value in
  if obj_has spacing k then ret (Plain (obj_read spacing k))
  else if bool_decide (k ∈ Object_prototype) then ret (Builtin k)
  else ret (Plain (value_of value)).

(** [Array.prototype.join]: [undefined] is joined as the empty string. *)
Definition join_text (v : Value) : string :=
  match v with
  | VUndef => ""
  | _ => ToString v
  end.

Fixpoint join (sep : string) (l : list string) : string :=
  match l with
  | [] => ""
  | [s] => s
  | s :: l' => s +:+ sep +:+ join sep l'
  end.

(** [Array.prototype.map] with a callback that reads the store. *)
Fixpoint array_mapM {A B} (f : A -> M B) (l : list A) : M (list B) :=
  match l with
  | [] => ret []
  | x :: l' =>
      let* y := f x in
      let* ys := array_mapM f l' in
      ret (y :: ys)
  end.

(** The text of the tracks, when none of them is a built-in. *)
Fixpoint track_texts (ts : list Track) : option (list string) :=
  match ts with
  | [] => Some []
  | Plain v :: ts' => cons (join_text v) <$> track_texts ts'
  | Builtin _ :: _ => None
  end.

Definition gridTrack (value : string + list (string + number)) : M (option string) :=
  match value with
  | inl s => ret (Some s)
  | inr sizes =>
      let* tracks := array_mapM gridTrackSize sizes in
      ret (join " " <$> track_texts tracks)
  end.

(** *** Timing functions *)

Definition timingFunction : JsObject :=
  obj_literal [
    Field "default" (VStr "cubic-bezier(0.45, 0, 0.4, 1)");
    Field "linear" (VStr "linear");
    Field "in" (VStr "cubic-bezier(0.5, 0, 1, 1)");
    Field "out" (VStr "cubic-bezier(0, 0, 0.40, 1)");
    Field "in-out" (VStr "cubic-bezier(0.45, 0, 0.4, 1)")
  ].

(** *** Transforms of arbitrary properties

    The functions the theme hands to [createArbitraryProperty]. *)

(** The transform of [durationProperty], the domain of the duration and
    delay properties: a number is a count of milliseconds. *)
Definition durationProperty_fn (value : Value) (property : string) : JsObject :=
  obj_literal [Field property
                 match value with
                 | VNum n => VStr (Number_toString n +:+ "ms")
                 | _ => value
                 end].

(** The transform of the [animation] property: declared as
    [animationName]. *)
Definition animation_fn (value : Value) (property : string) : JsObject :=
  obj_literal [Field (if String.eqb property "animation" then "animationName"
                      else property) value].

(** *** The names and the enumerated domains of the properties

    The keys of [properties], in the order of the source, and the domain
    of every property that is a list of literals. *)

Definition property_names : list string := [
  "color"; "backgroundColor"; "borderColor"; "outlineColor"; "fill";
  "stroke"; "borderSpacing"; "flexBasis"; "rowGap"; "columnGap"; "height";
  "width"; "containIntrinsicWidth"; "containIntrinsicHeight"; "minHeight";
  "maxHeight"; "minWidth"; "maxWidth"; "borderStartWidth";
  "borderEndWidth"; "borderTopWidth"; "borderBottomWidth"; "borderStyle";
  "strokeWidth"; "marginStart"; "marginEnd"; "marginTop"; "marginBottom";
  "paddingStart"; "paddingEnd"; "paddingTop"; "paddingBottom";
  "scrollMarginStart"; "scrollMarginEnd"; "scrollMarginTop";
  "scrollMarginBottom"; "scrollPaddingStart"; "scrollPaddingEnd";
  "scrollPaddingTop"; "scrollPaddingBottom"; "textIndent"; "translateX";
  "translateY"; "rotate"; "scale"; "transform"; "position"; "insetStart";
  "insetEnd"; "top"; "left"; "bottom"; "right"; "aspectRatio";
  "fontFamily"; "fontSize"; "fontWeight"; "lineHeight"; "listStyleType";
  "listStylePosition"; "textTransform"; "textAlign"; "verticalAlign";
  "textDecoration"; "textOverflow"; "lineClamp"; "hyphens"; "whiteSpace";
  "textWrap"; "wordBreak"; "boxDecorationBreak"; "boxShadow"; "filter";
  "borderTopStartRadius"; "borderTopEndRadius"; "borderBottomStartRadius";
  "borderBottomEndRadius"; "forcedColorAdjust"; "colorScheme";
  "backgroundImage"; "backgroundPosition"; "backgroundSize";
  "backgroundAttachment"; "backgroundClip"; "backgroundRepeat";
  "backgroundOrigin"; "backgroundBlendMode"; "mixBlendMode"; "opacity";
  "outlineStyle"; "outlineOffset"; "outlineWidth"; "transition";
  "transitionDelay"; "transitionDuration"; "transitionTimingFunction";
  "animation"; "animationDuration"; "animationDelay"; "animationDirection";
  "animationFillMode"; "animationIterationCount";
  "animationTimingFunction"; "display"; "alignContent"; "alignItems";
  "justifyContent"; "justifyItems"; "alignSelf"; "justifySelf";
  "flexDirection"; "flexWrap"; "flexShrink"; "flexGrow"; "gridColumnStart";
  "gridColumnEnd"; "gridRowStart"; "gridRowEnd"; "gridAutoFlow";
  "gridAutoRows"; "gridAutoColumns"; "gridTemplateColumns";
  "gridTemplateRows"; "gridTemplateAreas"; "float"; "clear"; "contain";
  "boxSizing"; "tableLayout"; "captionSide"; "borderCollapse"; "columns";
  "breakBefore"; "breakInside"; "breakAfter"; "overflowX"; "overflowY";
  "overscrollBehaviorX"; "overscrollBehaviorY"; "scrollBehavior"; "order";
  "pointerEvents"; "touchAction"; "userSelect"; "visibility"; "isolation";
  "transformOrigin"; "cursor"; "resize"; "scrollSnapType";
  "scrollSnapAlign"; "scrollSnapStop"; "appearance"; "objectFit";
  "objectPosition"; "willChange"; "zIndex"; "disableTapHighlight"
].

Definition enumerations : list (string * list string) := [
  ("borderStyle", ["solid"; "dashed"; "dotted"; "double"; "hidden"; "none"]);
  ("position", ["absolute"; "fixed"; "relative"; "sticky"; "static"]);
  ("listStyleType", ["none"; "dist"; "decimal"]);
  ("listStylePosition", ["inside"; "outside"]);
  ("textTransform", ["uppercase"; "lowercase"; "capitalize"; "none"]);
  ("textAlign", ["start"; "center"; "end"; "justify"]);
  ("verticalAlign", ["baseline"; "top"; "middle"; "bottom"; "text-top"; "text-bottom"; "sub"; "super"]);
  ("textOverflow", ["ellipsis"; "clip"]);
  ("hyphens", ["none"; "manual"; "auto"]);
  ("whiteSpace", ["normal"; "nowrap"; "pre"; "pre-line"; "pre-wrap"; "break-spaces"]);
  ("textWrap", ["wrap"; "nowrap"; "balance"; "pretty"]);
  ("wordBreak", ["normal"; "break-all"; "keep-all"]);
  ("boxDecorationBreak", ["slice"; "clone"]);
  ("forcedColorAdjust", ["auto"; "none"]);
  ("colorScheme", ["light"; "dark"; "light dark"]);
  ("backgroundPosition", ["bottom"; "center"; "left"; "left bottom"; "left top"; "right"; "right bottom"; "right top"; "top"]);
  ("backgroundSize", ["auto"; "cover"; "contain"]);
  ("backgroundAttachment", ["fixed"; "local"; "scroll"]);
  ("backgroundClip", ["border-box"; "padding-box"; "content-box"; "text"]);
  ("backgroundRepeat", ["repeat"; "no-repeat"; "repeat-x"; "repeat-y"; "round"; "space"]);
  ("backgroundOrigin", ["border-box"; "padding-box"; "content-box"]);
  ("backgroundBlendMode", ["normal"; "multiply"; "screen"; "overlay"; "darken"; "lighten"; "color-dodge"; "color-burn"; "hard-light"; "soft-light"; "difference"; "exclusion"; "hue"; "saturation"; "color"; "luminosity"]);
  ("mixBlendMode", ["normal"; "multiply"; "screen"; "overlay"; "darken"; "lighten"; "color-dodge"; "color-burn"; "hard-light"; "soft-light"; "difference"; "exclusion"; "hue"; "saturation"; "color"; "luminosity"; "plus-darker"; "plus-lighter"]);
  ("outlineStyle", ["none"; "solid"; "dashed"; "dotted"; "double"; "inset"]);
  ("animationDirection", ["normal"; "reverse"; "alternate"; "alternate-reverse"]);
  ("animationFillMode", ["none"; "forwards"; "backwards"; "both"]);
  ("display", ["block"; "inline-block"; "inline"; "flex"; "inline-flex"; "grid"; "inline-grid"; "contents"; "list-item"; "none"]);
  ("alignContent", ["normal"; "center"; "start"; "end"; "space-between"; "space-around"; "space-evenly"; "baseline"; "stretch"]);
  ("alignItems", ["start"; "end"; "center"; "baseline"; "stretch"]);
  ("justifyContent", ["normal"; "start"; "end"; "center"; "space-between"; "space-around"; "space-evenly"; "stretch"]);
  ("justifyItems", ["start"; "end"; "center"; "stretch"]);
  ("alignSelf", ["auto"; "start"; "end"; "center"; "stretch"; "baseline"]);
  ("justifySelf", ["auto"; "start"; "end"; "center"; "stretch"]);
  ("flexDirection", ["row"; "column"; "row-reverse"; "column-reverse"]);
  ("flexWrap", ["wrap"; "wrap-reverse"; "nowrap"]);
  ("gridAutoFlow", ["row"; "column"; "dense"; "row dense"; "column dense"]);
  ("float", ["inline-start"; "inline-end"; "right"; "left"; "none"]);
  ("clear", ["inline-start"; "inline-end"; "left"; "right"; "both"; "none"]);
  ("contain", ["none"; "strict"; "content"; "size"; "inline-size"; "layout"; "style"; "paint"]);
  ("boxSizing", ["border-box"; "content-box"]);
  ("tableLayout", ["auto"; "fixed"]);
  ("captionSide", ["top"; "bottom"]);
  ("borderCollapse", ["collapse"; "separate"]);
  ("breakBefore", ["auto"; "avoid"; "all"; "avoid-page"; "page"; "left"; "right"; "column"]);
  ("breakInside", ["auto"; "avoid"; "avoid-page"; "avoid-column"]);
  ("breakAfter", ["auto"; "avoid"; "all"; "avoid-page"; "page"; "left"; "right"; "column"]);
  ("overflowX", ["auto"; "hidden"; "clip"; "visible"; "scroll"]);
  ("overflowY", ["auto"; "hidden"; "clip"; "visible"; "scroll"]);
  ("overscrollBehaviorX", ["auto"; "contain"; "none"]);
  ("overscrollBehaviorY", ["auto"; "contain"; "none"]);
  ("scrollBehavior", ["auto"; "smooth"]);
  ("pointerEvents", ["none"; "auto"]);
  ("touchAction", ["auto"; "none"; "pan-x"; "pan-y"; "manipulation"; "pinch-zoom"]);
  ("userSelect", ["none"; "text"; "all"; "auto"]);
  ("visibility", ["visible"; "hidden"; "collapse"]);
  ("isolation", ["isolate"; "auto"]);
  ("transformOrigin", ["center"; "top"; "top right"; "right"; "bottom right"; "bottom"; "bottom left"; "left"; "top right"]);
  ("cursor", ["auto"; "default"; "pointer"; "wait"; "text"; "move"; "help"; "not-allowed"; "none"; "context-menu"; "progress"; "cell"; "crosshair"; "vertical-text"; "alias"; "copy"; "no-drop"; "grab"; "grabbing"; "all-scroll"; "col-resize"; "row-resize"; "n-resize"; "e-resize"; "s-resize"; "w-resize"; "ne-resize"; "nw-resize"; "se-resize"; "ew-resize"; "ns-resize"; "nesw-resize"; "nwse-resize"; "zoom-in"; "zoom-out"]);
  ("resize", ["none"; "vertical"; "horizontal"; "both"]);
  ("scrollSnapType", ["x"; "y"; "both"; "x mandatory"; "y mandatory"; "both mandatory"]);
  ("scrollSnapAlign", ["start"; "end"; "center"; "none"]);
  ("scrollSnapStop", ["normal"; "always"]);
  ("appearance", ["none"; "auto"]);
  ("objectFit", ["contain"; "cover"; "fill"; "none"; "scale-down"]);
  ("objectPosition", ["bottom"; "center"; "left"; "left bottom"; "left top"; "right"; "right bottom"; "right top"; "top"]);
  ("willChange", ["auto"; "scroll-position"; "contents"; "transform"])
].

(** Every character of a string passes a test. *)
Fixpoint str_forall (P : ascii -> bool) (s : string) : bool :=
  match s with
  | EmptyString => true
  | String c r => P c && str_forall P r
  end.


(** What a shorthand writes for the value [v]: the names of the
    properties. *)
Definition shorthand_targets (sh : Shorthand) (v : Value) : list string :=
  match sh with
  | Longhands properties => properties
  | Expansion fn => Object_keys (fn v)
  end.

(** The colour maps of [borderColor], [outlineColor] and [stroke], as the
    theme hands them to [createColorProperty]; [colorToken] is a macro of
    [./tokens]. *)
Definition borderColor_map (tk : Tokens) (colorToken : string -> string) : JsObject :=
  obj_literal [
    Spread (color tk);
    Field "negative" (VObj (obj_literal [
      Field "default" (VStr (colorToken "negative-border-color-default"));
      Field "isHovered" (VStr (colorToken "negative-border-color-hover"));
      Field "isFocusVisible" (VStr (colorToken "negative-border-color-key-focus"));
      Field "isPressed" (VStr (colorToken "negative-border-color-down"))
    ]));
    Field "disabled" (VStr (colorToken "disabled-border-color"))
  ].

Definition outlineColor_map (tk : Tokens) (colorToken : string -> string) : JsObject :=
  obj_literal [
    Spread (color tk);
    Field "focus-ring" (VObj (obj_literal [
      Field "default" (VStr (colorToken "focus-indicator-color"));
      Field "forcedColors" (VStr "Highlight")
    ]))
  ].

Definition stroke_map (tk : Tokens) : JsObject :=
  obj_literal [
    Field "none" (VStr "none");
    Field "currentColor" (VStr "currentColor");
    Spread (color tk)
  ].

(** * Properties *)

(** ** The definitions at work *)

Example toString_shortest_digits :
  map Number_toString
      [num_of_decimal 1 (-1); num_div (num_of_Z 1) (num_of_Z 3);
       num_mul (num_of_Z 3) (num_of_decimal 1 (-1)); num_of_decimal 1 21;
       num_of_decimal 1 (-7); num_of_decimal 15 (-7); num_of_Z (-384);
       num_of_decimal 5 (-324); num_of_decimal 2 308; S754_zero true; NaN]
  = ["0.1"; "0.3333333333333333"; "0.30000000000000004"; "1e+21";
     "1e-7"; "0.0000015"; "-384"; "5e-324"; "Infinity"; "0"; "NaN"].
Proof. vm_compute. reflexivity. Qed.

Example parseFloat_prefix :
  map (fun s => Number_toString (parseFloat s))
      ["0.25rem"; "  -12.5e1x"; ".5"; "5."; "."; "rem"; "1e"; "Infinityx"; "4px"]
  = ["0.25"; "-125"; "0.5"; "5"; "NaN"; "NaN"; "1"; "Infinity"; "4"].
Proof. vm_compute. reflexivity. Qed.

Example keys_indices_first :
  Object_keys (obj_literal [Field "auto" VUndef; Field "2" VUndef;
                            Field "10" VUndef; Field "-4" VUndef;
                            Field "1" VUndef; Field "auto" (VBool true)])
  = ["1"; "2"; "10"; "auto"; "-4"].
Proof. vm_compute. reflexivity. Qed.

Example match_unit :
  map match_non_numeric ["0.25rem"; "-0.25rem"; "12"]
  = [Some "rem"; Some "-"; None].
Proof. vm_compute. reflexivity. Qed.

Example pxToRem_values :
  map pxToRem [inr (num_of_Z 4); inr (num_of_Z 18); inl "10px"; inl "auto"]
  = ["0.25rem"; "1.125rem"; "0.625rem"; "NaNrem"].
Proof. vm_compute. reflexivity. Qed.

Example fontRelative_values :
  [fontRelative None (num_of_Z 10) None;
   fontRelative None (num_of_Z 8) (Some (num_of_Z 17));
   fontRelative (Some macro_context) (num_of_Z 4) None]
  = ["0.7142857142857143em"; "0.47058823529411764em"; "[0.2857142857142857em]"].
Proof. vm_compute. reflexivity. Qed.

Example edgeToText_values :
  [fst (edgeToText None (num_of_Z 32) (initial sample_tokens));
   fst (edgeToText (Some macro_context) (num_of_Z 33) (initial sample_tokens))]
  = [Normal "calc(2rem * 3 / 8)"; Normal "calc(undefined * 3 / 8)"].
Proof. vm_compute. reflexivity. Qed.

Example baseSpacing_head :
  take 4 baseSpacing
  = [("0", VStr "0rem"); ("4", VStr "0.25rem");
     ("8", VStr "0.5rem"); ("12", VStr "0.75rem")].
Proof. vm_compute. reflexivity. Qed.

Example negativeSpacing_head :
  take 2 negativeSpacing = [("-4", VStr "-0.25rem"); ("-8", VStr "-0.5rem")].
Proof. vm_compute. reflexivity. Qed.

Example size_values :
  size None (num_of_Z 32) = [("default", VStr "2rem"); ("touch", VStr "2.5rem")]
  /\ size (Some macro_context) (num_of_Z 18)
     = [("default", VStr "[1.125rem]"); ("touch", VStr "[1.40625rem]")].
Proof. split; vm_compute; reflexivity. Qed.

Example flush_orders_rules :
  (map rule_conditions ∘ flush)
    <$> compile_all [] [("width", "10rem", ["lg"]); ("width", "5rem", ["sm"]);
                        ("width", "1rem", []); ("width", "5rem", ["sm"]);
                        ("height", "5rem", ["sm"; "touch"])]
  = Some [[]; ["sm"]; ["sm"; "touch"]; ["lg"]]
  /\ compile_all [] [("width", "1rem", ["isBogus"])] = None.
Proof. split; vm_compute; reflexivity. Qed.

(** ** Strings *)

Lemma str_app_cons (c : ascii) (a b : string) :
  String c a +:+ b = String c (a +:+ b).
Proof. reflexivity. Qed.

Lemma str_app_assoc (a b c : string) : (a +:+ b) +:+ c = a +:+ (b +:+ c).
Proof.
  induction a as [|x a IH]; [done |].
  by rewrite !str_app_cons, IH.
Qed.

Lemma ends_with_bracket_app (a : string) (c : ascii) (r : string) :
  ends_with_bracket (a +:+ String c r) = ends_with_bracket (String c r).
Proof.
  induction a as [|x a IH]; [done |].
  rewrite str_app_cons. destruct a as [|y a]; [done |].
  rewrite str_app_cons in *. exact IH.
Qed.

Lemma is_marker_brackets (s : string) : is_marker ("[" +:+ s +:+ "]") = true.
Proof. rewrite str_app_cons. simpl. apply (ends_with_bracket_app s "]" ""). Qed.

Lemma is_marker_unit (s : string) (c : ascii) (r : string) :
  ends_with_bracket (String c r) = false -> is_marker (s +:+ String c r) = false.
Proof.
  intros H. destruct s as [|x s].
  - change (is_marker (String c r) = false). unfold is_marker.
    destruct r as [|d r]; [by rewrite andb_false_r |].
    change (ends_with_bracket (String c (String d r)))
      with (ends_with_bracket (String d r)) in H.
    by rewrite H, andb_false_r.
  - rewrite str_app_cons. unfold is_marker.
    by rewrite ends_with_bracket_app, H, andb_false_r.
Qed.

(** ** Objects *)

Lemma obj_get_None (o : JsObject) (k : string) :
  obj_get o k = None <-> k ∉ Object_keys o.
Proof.
  induction o as [|[k' v] o IH]; simpl.
  - split; [intros _; apply not_elem_of_nil | done].
  - rewrite not_elem_of_cons. destruct (String.eqb_spec k' k) as [->|Hne].
    + split; [done | intros [? _]; done].
    + rewrite IH. split; [intros ?; split; [congruence | done] | intros [_ ?]; done].
Qed.

Lemma obj_has_false (o : JsObject) (k : string) :
  obj_has o k = false <-> k ∉ Object_keys o.
Proof.
  unfold obj_has. rewrite <- obj_get_None. destruct (obj_get o k); split; done.
Qed.

Lemma keys_obj_update (o : JsObject) (k : string) (v : Value) :
  Object_keys (obj_update o k v) = Object_keys o.
Proof.
  induction o as [|[k' v'] o IH]; [done |]. simpl.
  destruct (String.eqb k' k); simpl; [done | by rewrite IH].
Qed.

Lemma keys_obj_add_index (o : JsObject) (i : Z) (k : string) (v : Value) :
  Object_keys (obj_add_index o i k v) ≡ₚ k :: Object_keys o.
Proof.
  induction o as [|[k' v'] o IH]; [done |]. simpl.
  destruct (array_index k') as [j|]; [destruct (j <? i) |]; simpl; try done.
  rewrite IH. apply Permutation_swap.
Qed.

Lemma keys_obj_add (o : JsObject) (k : string) (v : Value) :
  Object_keys (obj_add o k v) ≡ₚ k :: Object_keys o.
Proof.
  unfold obj_add. destruct (array_index k).
  - apply keys_obj_add_index.
  - unfold Object_keys. rewrite map_app. simpl.
    symmetry. apply Permutation_cons_append.
Qed.

(** The keys of an object stay distinct. *)
Lemma obj_set_NoDup (o : JsObject) (k : string) (v : Value) :
  NoDup (Object_keys o) -> NoDup (Object_keys (obj_set o k v)).
Proof.
  intros Hnd. unfold obj_set. destruct (obj_has o k) eqn:Hhas.
  - by rewrite keys_obj_update.
  - rewrite keys_obj_add. apply NoDup_cons. split; [by apply obj_has_false | done].
Qed.

Lemma obj_spread_NoDup (src o : JsObject) :
  NoDup (Object_keys o) -> NoDup (Object_keys (obj_spread o src)).
Proof.
  revert o. unfold obj_spread.
  induction src as [|[k v] src IH]; intros o Hnd; simpl; [done |].
  apply IH. by apply obj_set_NoDup.
Qed.

Lemma obj_literal_NoDup (ms : list Member) : NoDup (Object_keys (obj_literal ms)).
Proof.
  unfold obj_literal.
  assert (forall o, NoDup (Object_keys o) ->
                    NoDup (Object_keys (fold_left obj_member ms o))) as H.
  { induction ms as [|m ms IH]; intros o Hnd; simpl; [done |].
    apply IH. destruct m; simpl; [by apply obj_set_NoDup | by apply obj_spread_NoDup]. }
  apply H. apply NoDup_nil_2.
Qed.

(** The palette of a freshly loaded module has distinct keys, whatever the
    token macros return. *)
Lemma color_NoDup (tk : Tokens) : NoDup (Object_keys (st_color (initial tk))).
Proof. apply obj_literal_NoDup. Qed.

Lemma obj_set_nil (k : string) (v : Value) : obj_set [] k v = [(k, v)].
Proof. unfold obj_set, obj_add. simpl. by destruct (array_index k). Qed.

Lemma obj_get_update (o : JsObject) (k : string) (v : Value) :
  obj_has o k = true -> obj_get (obj_update o k v) k = Some v.
Proof.
  unfold obj_has. induction o as [|[k' v'] o IH]; simpl; [done |].
  destruct (String.eqb k' k) eqn:E; simpl; rewrite E; [done | exact IH].
Qed.

Lemma obj_get_add_index (o : JsObject) (i : Z) (k : string) (v : Value) :
  obj_get o k = None -> obj_get (obj_add_index o i k v) k = Some v.
Proof.
  induction o as [|[k' v'] o IH]; simpl.
  - by rewrite String.eqb_refl.
  - destruct (String.eqb k' k) eqn:E; [done |]. intros Hnone.
    destruct (array_index k') as [j|]; [destruct (j <? i) |]; simpl;
      rewrite ?E, ?String.eqb_refl; auto.
Qed.

Lemma obj_get_app_new (o : JsObject) (k : string) (v : Value) :
  obj_get o k = None -> obj_get (o ++ [(k, v)]) k = Some v.
Proof.
  induction o as [|[k' v'] o IH]; simpl.
  - by rewrite String.eqb_refl.
  - destruct (String.eqb k' k); [done | exact IH].
Qed.

(** Reading a property gives the value last written to it. *)
Lemma obj_get_set (o : JsObject) (k : string) (v : Value) :
  obj_get (obj_set o k v) k = Some v.
Proof.
  unfold obj_set. destruct (obj_has o k) eqn:Hhas.
  - by apply obj_get_update.
  - assert (obj_get o k = None) as Hnone.
    { unfold obj_has in Hhas. by destruct (obj_get o k). }
    unfold obj_add. destruct (array_index k).
    + by apply obj_get_add_index.
    + by apply obj_get_app_new.
Qed.

(** ** Arrays *)

Lemma indexOf_from_absent (l : list string) (x : string) (i : Z) :
  x ∉ l -> indexOf_from i l x = -1.
Proof.
  revert i. induction l as [|y l IH]; intros i Hx; simpl; [done |].
  apply not_elem_of_cons in Hx as [Hne Hx].
  destruct (String.eqb_spec y x); [congruence | by apply IH].
Qed.

Lemma indexOf_from_first (before after : list string) (x : string) (i : Z) :
  x ∉ before ->
  indexOf_from i (before ++ x :: after) x = i + Z.of_nat (length before).
Proof.
  revert i. induction before as [|y l IH]; intros i Hx; simpl.
  - rewrite String.eqb_refl. lia.
  - apply not_elem_of_cons in Hx as [Hne Hx].
    destruct (String.eqb_spec y x); [congruence |]. rewrite IH by done. lia.
Qed.

Lemma indexOf_absent (l : list string) (x : string) :
  indexOf l x = -1 <-> x ∉ l.
Proof.
  split; [| apply indexOf_from_absent].
  intros Hidx Hin. apply list_elem_of_split_l in Hin as (l1 & l2 & -> & Hx).
  unfold indexOf in Hidx. rewrite indexOf_from_first in Hidx by done. lia.
Qed.

Lemma array_read_next (before after : list string) (x next : string) :
  array_read (before ++ x :: next :: after) (Z.of_nat (length before) + 1)
  = VStr next.
Proof.
  unfold array_read.
  destruct (Z.ltb_spec (Z.of_nat (length before) + 1) 0); [lia |].
  replace (Z.to_nat (Z.of_nat (length before) + 1)) with (length before + 1)%nat by lia.
  rewrite lookup_app_r by lia.
  by replace (length before + 1 - length before)%nat with 1%nat by lia.
Qed.

Lemma array_read_past_end (before : list string) (x : string) :
  array_read (before ++ [x]) (Z.of_nat (length before) + 1) = VUndef.
Proof.
  unfold array_read.
  destruct (Z.ltb_spec (Z.of_nat (length before) + 1) 0); [lia |].
  rewrite lookup_ge_None_2; [done |]. rewrite length_app. simpl. lia.
Qed.

(** ** [baseColor] *)

Lemma states_literal (base : string) (next : Value) :
  obj_literal [Field "default" (VStr base); Field "isHovered" next;
               Field "isFocusVisible" next; Field "isPressed" next]
  = interaction_states base next.
Proof. reflexivity. Qed.

(** On a key of the palette, [baseColor] reads the position after the
    first occurrence of the key. *)
Lemma baseColor_at (st : Store) (base : string) (before after : list string) :
  Object_keys (st_color st) = before ++ base :: after ->
  base ∉ before ->
  baseColor base st
  = (Normal (interaction_states base
               (array_read (before ++ base :: after)
                           (Z.of_nat (length before) + 1))), st).
Proof.
  intros Hkeys Hfirst. unfold baseColor, bind, read, ret, throw.
  rewrite Hkeys. unfold indexOf. rewrite indexOf_from_first by done.
  destruct (Z.eqb_spec (0 + Z.of_nat (length before)) (-1)); [lia |].
  by rewrite states_literal.
Qed.

Lemma baseColor_absent (st : Store) (base : string) :
  base ∉ Object_keys (st_color st) ->
  baseColor base st = (Throw (Error ("Invalid base color " +:+ base)), st).
Proof.
  intros Habsent. unfold baseColor, bind, read, ret, throw.
  apply indexOf_absent in Habsent. by rewrite Habsent.
Qed.

(** C1.  For a key [base] of the palette that is followed by the key
    [next] in the order of the palette's keys, [baseColor base] returns the
    record with [default] equal to [base] and [isHovered],
    [isFocusVisible] and [isPressed] all equal to [next].  The result
    depends on the order: there is a palette with the same entries in
    another order on which the result differs, and so it does on every
    reordering in which another key follows [base]. *)
Theorem baseColor_next_in_declaration_order
    (st : Store) (base next : string) (before after : list string) :
  NoDup (Object_keys (st_color st)) ->
  Object_keys (st_color st) = before ++ base :: next :: after ->
  baseColor base st = (Normal (interaction_states base (VStr next)), st)
  /\ (exists reordered : JsObject,
        (reordered ≡ₚ st_color st)
        /\ fst (baseColor base (with_color st reordered))
           <> fst (baseColor base st))
  /\ (forall (reordered : JsObject) (next' : string) (before' after' : list string),
        reordered ≡ₚ st_color st ->
        Object_keys reordered = before' ++ base :: next' :: after' ->
        next' <> next ->
        fst (baseColor base (with_color st reordered))
        <> fst (baseColor base st)).
Proof.
  intros Hnd Hkeys.
  assert ((base ∉ before) /\ (base ∉ next :: after)) as [Hbefore Hafter].
  { rewrite Hkeys in Hnd. apply NoDup_app in Hnd as (_ & Hdisj & Hnd').
    apply NoDup_cons in Hnd' as [? _]. split; [| done].
    intros Hin. apply (Hdisj base Hin). left. }
  assert (baseColor base st = (Normal (interaction_states base (VStr next)), st))
    as Hres.
  { rewrite (baseColor_at st base before (next :: after)) by done.
    by rewrite array_read_next. }
  split; [exact Hres |]. split; cycle 1.
  { intros reordered next' before' after' Hperm Hkeys' Hne.
    assert (base ∉ before') as Hbefore'.
    { assert (NoDup (Object_keys reordered)) as Hnd'.
      { unfold Object_keys. rewrite Hperm. exact Hnd. }
      rewrite Hkeys' in Hnd'. apply NoDup_app in Hnd' as (_ & Hdisj & Hnd').
      intros Hin. apply (Hdisj base Hin). left. }
    rewrite Hres, (baseColor_at _ base before' (next' :: after')) by done.
    rewrite array_read_next. simpl. unfold interaction_states. congruence. }
  unfold Object_keys in Hkeys.
  apply map_eq_app in Hkeys as (e1 & e' & Hcolor & He1 & He').
  destruct e' as [|[b vb] e']; [done |]. destruct e' as [|[n vn] e2]; [done |].
  simpl in He'. injection He' as -> -> He2.
  exists (e1 ++ (next, vn) :: e2 ++ [(base, vb)]). split.
  - rewrite Hcolor. apply Permutation_app_head.
    rewrite (Permutation_cons_append (_ :: e2)). done.
  - rewrite Hres. simpl.
    rewrite (baseColor_at _ base (map fst (e1 ++ (next, vn) :: e2)) []).
    + rewrite array_read_past_end. simpl. unfold interaction_states. congruence.
    + unfold Object_keys. simpl. rewrite !map_app. simpl. rewrite map_app.
      simpl. by rewrite <- app_assoc.
    + rewrite map_app. simpl. rewrite He1, He2.
      rewrite elem_of_app. intros [?|?]; done.
Qed.

(** C1, on the palette of the sample tokens: [blue-400] is followed by
    [blue-500]. *)
Lemma baseColor_next_in_declaration_order_witness :
  baseColor "blue-400" (initial sample_tokens)
  = (Normal (interaction_states "blue-400" (VStr "blue-500")),
     initial sample_tokens).
Proof.
  set (keys := Object_keys (st_color (initial sample_tokens))).
  refine (proj1 (baseColor_next_in_declaration_order
                   (initial sample_tokens) "blue-400" "blue-500"
                   (take 22 keys) (drop 24 keys) _ _)).
  - apply color_NoDup.
  - vm_compute. reflexivity.
Defined.

(** C9.  [baseColor base] throws exactly when [base] is not a key of the
    palette.  On the last key it returns normally, and the three state
    fields of the record are [undefined]. *)
Theorem baseColor_throws_iff_not_a_key (st : Store) (base : string) :
  ((exists e, fst (baseColor base st) = Throw e)
   <-> base ∉ Object_keys (st_color st))
  /\ (forall before : list string,
        Object_keys (st_color st) = before ++ [base] ->
        base ∉ before ->
        baseColor base st = (Normal (interaction_states base VUndef), st)).
Proof.
  split.
  - split.
    + intros [e He] Hin.
      apply list_elem_of_split_l in Hin as (l1 & l2 & Hkeys & Hfirst).
      rewrite (baseColor_at st base l1 l2) in He by done. done.
    + intros Habsent. rewrite baseColor_absent by done. by eexists.
  - intros before Hkeys Hfirst.
    rewrite (baseColor_at st base before []) by done.
    by rewrite array_read_past_end.
Qed.

(** C9, on the palette of the sample tokens: [LinkText] is the last key. *)
Lemma baseColor_throws_iff_not_a_key_witness :
  baseColor "LinkText" (initial sample_tokens)
  = (Normal (interaction_states "LinkText" VUndef), initial sample_tokens)
  /\ exists e, fst (baseColor "nope" (initial sample_tokens)) = Throw e.
Proof.
  set (keys := Object_keys (st_color (initial sample_tokens))).
  split.
  - refine (proj2 (baseColor_throws_iff_not_a_key
                     (initial sample_tokens) "LinkText") (take 422 keys) _ _).
    + vm_compute. reflexivity.
    + refine (bool_decide_unpack _ _). vm_compute. exact I.
  - apply (proj1 (baseColor_throws_iff_not_a_key (initial sample_tokens) "nope")).
    refine (bool_decide_unpack _ _). vm_compute. exact I.
Defined.

(** ** [lightDark] *)

(** C2 (amended).  [lightDark] does not look at its receiver: called with
    or without a compiling context, on two keys of the palette bound to
    the strings [v_light] and [v_dark] it returns the arbitrary-value
    marker [[light-dark(v_light, v_dark)]], the string [arbitrary] gives
    inside a compiling context. *)
Theorem lightDark_marker_whatever_the_receiver
    (this : Receiver) (st : Store) (light dark v_light v_dark : string) :
  obj_get (st_color st) light = Some (VStr v_light) ->
  obj_get (st_color st) dark = Some (VStr v_dark) ->
  let content := "light-dark(" +:+ v_light +:+ ", " +:+ v_dark +:+ ")" in
  lightDark this light dark st = (Normal ("[" +:+ content +:+ "]"), st)
  /\ "[" +:+ content +:+ "]" = arbitrary (Some macro_context) content
  /\ is_marker ("[" +:+ content +:+ "]") = true.
Proof.
  intros Hlight Hdark content. split; [| split].
  - unfold lightDark, bind, read, ret, obj_read. rewrite Hlight, Hdark.
    simpl ToString. f_equal. f_equal. unfold content.
    change "[light-dark(" with ("[" +:+ "light-dark(").
    change ")]" with (")" +:+ "]").
    by rewrite <- !str_app_assoc.
  - reflexivity.
  - apply is_marker_brackets.
Qed.

Lemma lightDark_marker_whatever_the_receiver_witness :
  lightDark None "black" "blue-400" (initial sample_tokens)
  = (Normal "[light-dark(black, var(--blue-400))]", initial sample_tokens)
  /\ lightDark (Some macro_context) "black" "blue-400" (initial sample_tokens)
     = (Normal "[light-dark(black, var(--blue-400))]", initial sample_tokens).
Proof.
  split.
  - refine (proj1 (lightDark_marker_whatever_the_receiver
                     None (initial sample_tokens)
                     "black" "blue-400" "black" "var(--blue-400)" _ _));
      vm_compute; reflexivity.
  - refine (proj1 (lightDark_marker_whatever_the_receiver
                     (Some macro_context) (initial sample_tokens)
                     "black" "blue-400" "black" "var(--blue-400)" _ _));
      vm_compute; reflexivity.
Defined.

(** C2, as stated, fails: a call without a compiling context returns the
    bracketed marker, not a plain string. *)
Lemma lightDark_plain_call_returns_marker :
  fst (lightDark None "black" "white" (initial sample_tokens))
  = Normal "[light-dark(black, white)]"
  /\ is_marker "[light-dark(black, white)]" = true
  /\ arbitrary None "light-dark(black, white)" <> "[light-dark(black, white)]".
Proof.
  split; [| split]; [vm_compute; reflexivity .. |].
  intros H. vm_compute in H. discriminate H.
Qed.

(** ** [space] and [size] *)

(** C6.  Inside a compiling context [space px] is the marker
    [[<px/16>rem]]; without one it is the plain string [<px/16>rem], which
    is what [pxToRem] returns and is not of the marker's shape. *)
Theorem space_marker_in_compiling_context (px : number) (ctx : MacroContext) :
  let quotient := Number_toString (num_div px (num_of_Z 16)) in
  space (Some ctx) px = "[" +:+ quotient +:+ "rem]"
  /\ space None px = quotient +:+ "rem"
  /\ pxToRem (inr px) = quotient +:+ "rem"
  /\ is_marker (space (Some ctx) px) = true
  /\ is_marker (space None px) = false.
Proof.
  intros quotient. unfold space, arbitrary, pxToRem. fold quotient.
  repeat split.
  - by rewrite str_app_assoc.
  - apply is_marker_brackets.
  - by apply is_marker_unit.
Qed.

(** C10, as stated, fails inside a compiling context: the [touch] value of
    [size 32] is then the marker [[2.5rem]], while [pxToRem (32 * 1.25)]
    is [2.5rem]. *)
Lemma size_in_compiling_context_is_wrapped :
  obj_get (size (Some macro_context) (num_of_Z 32)) "touch" = Some (VStr "[2.5rem]")
  /\ pxToRem (inr (num_mul (num_of_Z 32) num_1_25)) = "2.5rem"
  /\ obj_get (size (Some macro_context) (num_of_Z 32)) "touch"
     <> Some (VStr (pxToRem (inr (num_mul (num_of_Z 32) num_1_25)))).
Proof.
  split; [| split]; [vm_compute; reflexivity .. |].
  intros H. vm_compute in H. discriminate H.
Qed.

(** C10 (amended).  Touch scaling is the fixed ratio 1.25.  [size px]
    returns the record of [default] and [touch] whose values are what
    [arbitrary] makes of [pxToRem px] and of [pxToRem (px * 1.25)]: the
    two strings themselves on a plain call, and the two strings in
    brackets inside a compiling context.  Every entry of [baseSpacing] is
    a length [d] rem, and [scaledSpacing] binds the same key to the record
    whose [default] is that length and whose [touch] is [d * 1.25] rem. *)
Theorem touch_scaling_ratio (px : number) (ctx : MacroContext) :
  (forall this : Receiver,
     size this px
     = [("default", VStr (arbitrary this (pxToRem (inr px))));
        ("touch", VStr (arbitrary this (pxToRem (inr (num_mul px num_1_25)))))])
  /\ size None px
     = [("default", VStr (pxToRem (inr px)));
        ("touch", VStr (pxToRem (inr (num_mul px num_1_25))))]
  /\ size (Some ctx) px
     = [("default", VStr ("[" +:+ pxToRem (inr px) +:+ "]"));
        ("touch", VStr ("[" +:+ pxToRem (inr (num_mul px num_1_25)) +:+ "]"))]
  /\ exists lengths : list (string * number),
       baseSpacing = map (fun kd => (fst kd, VStr (rem_of (snd kd)))) lengths
       /\ scaledSpacing = Normal (map (fun kd => (fst kd, scaled (snd kd))) lengths).
Proof.
  repeat split.
  exists (map (fun p => (Number_toString (num_of_Z p),
                         num_div (num_of_Z p) (num_of_Z 16)))
              [0; 4; 8; 12; 16; 20; 24; 28; 32; 36; 40; 44; 48; 56; 64; 80; 96;
               112; 128; 144; 160; 176; 192; 208; 224; 240; 256; 288; 320; 384]).
  split; vm_compute; reflexivity.
Qed.

(** ** [outlineOffset] *)

(** C7.  The transform of [outlineOffset] turns a number [v] into exactly
    one declaration, of the property it is applied for, whose value is
    the number followed by [px]. *)
Theorem outlineOffset_one_declaration_in_px (v : number) :
  (forall property : string,
     outlineOffset (VNum v) property
     = [(property, VStr (Number_toString v +:+ "px"))])
  /\ outlineOffset (VNum v) "outlineOffset"
     = [("outlineOffset", VStr (Number_toString v +:+ "px"))]
  /\ length (outlineOffset (VNum v) "outlineOffset") = 1%nat.
Proof.
  assert (forall property : string,
            outlineOffset (VNum v) property
            = [(property, VStr (Number_toString v +:+ "px"))]) as H.
  { intros property. unfold outlineOffset, createArbitraryProperty, obj_literal.
    simpl. apply obj_set_nil. }
  split; [exact H |]. by rewrite H.
Qed.

(** ** Shorthands *)

(** C4.  [transition] is a function-form shorthand.  Applied to any value
    [v] it returns the mapping of [transition] to [v], of
    [transitionDuration] to 150 and of [transitionTimingFunction] to
    ['default']; the expansion of the shorthand is that mapping, a style
    that uses the shorthand alone declares that mapping and nothing else,
    and in any style the use of the shorthand writes the entries of that
    mapping. *)
Theorem transition_shorthand_complete_mapping :
  exists fn : Value -> JsObject,
    table_get shorthands "transition" = Some (Expansion fn)
    /\ forall v : Value,
         fn v = transition_declarations v
         /\ expand "transition" v = Some (transition_declarations v)
         /\ declarations [("transition", v)] = transition_declarations v
         /\ forall decls : JsObject,
              declare decls ("transition", v)
              = obj_spread decls (transition_declarations v).
Proof.
  eexists. split; [reflexivity |]. intros v. repeat split.
Qed.

Lemma declarations_snoc (style : JsObject) (kv : string * Value) :
  declarations (style ++ [kv]) = declare (declarations style) kv.
Proof. unfold declarations. by rewrite fold_left_app. Qed.

(** C3.  A style that sets [padding] to 8 and then [paddingTop] to 16
    declares [paddingTop] as 16 and the three other paddings as 8, and so
    for any two values.  The shorthand is expanded where it stands and the
    last write to a property wins: the same two entries in the other order
    declare the four paddings with the value of the shorthand, and a
    property written last in a style is declared with that value. *)
Theorem padding_then_paddingTop (a b : Value) :
  declarations [("padding", VNum (num_of_Z 8)); ("paddingTop", VNum (num_of_Z 16))]
  = [("paddingTop", VNum (num_of_Z 16)); ("paddingBottom", VNum (num_of_Z 8));
     ("paddingStart", VNum (num_of_Z 8)); ("paddingEnd", VNum (num_of_Z 8))]
  /\ expand "padding" a
     = Some [("paddingTop", a); ("paddingBottom", a);
             ("paddingStart", a); ("paddingEnd", a)]
  /\ declarations [("padding", a); ("paddingTop", b)]
     = [("paddingTop", b); ("paddingBottom", a);
        ("paddingStart", a); ("paddingEnd", a)]
  /\ declarations [("paddingTop", b); ("padding", a)]
     = [("paddingTop", a); ("paddingBottom", a);
        ("paddingStart", a); ("paddingEnd", a)]
  /\ forall (style : JsObject) (property : string),
       table_get shorthands property = None ->
       obj_get (declarations (style ++ [(property, b)])) property = Some b.
Proof.
  repeat split.
  intros style property Hbase. rewrite declarations_snoc.
  unfold declare, expand. cbn [fst snd]. rewrite Hbase. apply obj_get_set.
Qed.

Lemma padding_then_paddingTop_witness :
  obj_get (declarations [("padding", VNum (num_of_Z 8));
                         ("paddingBottom", VNum (num_of_Z 4));
                         ("paddingTop", VNum (num_of_Z 16))]) "paddingTop"
  = Some (VNum (num_of_Z 16)).
Proof.
  refine (proj2 (proj2 (proj2 (proj2
            (padding_then_paddingTop (VNum (num_of_Z 8)) (VNum (num_of_Z 16))))))
          [("padding", VNum (num_of_Z 8)); ("paddingBottom", VNum (num_of_Z 4))]
          "paddingTop" _).
  reflexivity.
Defined.

(** ** Conditions and the order of emission *)

#[local] Instance emitted_before_trans : Transitive emitted_before.
Proof. intros a b c. unfold emitted_before. lia. Qed.

#[local] Instance emitted_before_total : Total emitted_before.
Proof. intros a b. unfold emitted_before. lia. Qed.

Lemma compile_ranked (cache cache' : list CompiledRule)
    (property value : string) (conds : list string) :
  ranked cache -> compile cache property value conds = Some cache' -> ranked cache'.
Proof.
  unfold compile, ranked. intros Hok Hc.
  destruct (precedence conds) as [p|] eqn:Hp; [| done].
  destruct (existsb _ cache); injection Hc as <-; [done |].
  apply Forall_app. split; [done |]. by apply Forall_singleton.
Qed.

Lemma compile_all_ranked (requests : list (string * string * list string))
    (cache cache' : list CompiledRule) :
  ranked cache -> compile_all cache requests = Some cache' -> ranked cache'.
Proof.
  revert cache. induction requests as [|[[property value] conds] requests IH];
    intros cache Hok Hc; simpl in Hc.
  - by injection Hc as <-.
  - destruct (compile cache property value conds) as [cache1|] eqn:H1; [| done].
    eapply IH; [| exact Hc]. by eapply compile_ranked.
Qed.

(** In the flushed stylesheet a rule of lower precedence stands before a
    rule of higher precedence. *)
Lemma flush_by_precedence (cache : list CompiledRule) (a b : CompiledRule) :
  a ∈ cache -> b ∈ cache ->
  (rule_precedence a < rule_precedence b)%nat ->
  exists l1 l2 l3, flush cache = l1 ++ a :: l2 ++ b :: l3.
Proof.
  intros Ha Hb Hlt.
  assert (StronglySorted emitted_before (flush cache)) as Hsorted.
  { apply StronglySorted_merge_sort; apply _. }
  assert (flush cache ≡ₚ cache) as Hperm by apply merge_sort_Permutation.
  rewrite <- Hperm in Ha, Hb.
  apply list_elem_of_split in Ha as (l1 & l' & Heq).
  rewrite Heq in Hb, Hsorted. apply elem_of_app in Hb as [Hb|Hb].
  - exfalso.
    assert (emitted_before b a) as Hba.
    { eapply StronglySorted_app_1_elem_of; [exact Hsorted | exact Hb | left]. }
    unfold emitted_before in Hba. lia.
  - apply elem_of_cons in Hb as [->|Hb]; [lia |].
    apply list_elem_of_split in Hb as (l2 & l3 & ->).
    by exists l1, l2, l3.
Qed.

(** Among the breakpoints, the precedence follows the threshold. *)
Lemma breakpoint_precedence (a b : string) (wa wb : Z) :
  (a, wa) ∈ breakpoints -> (b, wb) ∈ breakpoints -> wa < wb ->
  exists pa pb, precedence [a] = Some pa /\ precedence [b] = Some pb
                /\ (pa < pb)%nat.
Proof.
  intros Ha Hb Hlt.
  change breakpoints
    with [("sm", 640); ("md", 768); ("lg", 1024); ("xl", 1280); ("2xl", 1536)]
    in Ha, Hb.
  repeat (apply elem_of_cons in Ha as [Ha|Ha]; [injection Ha as -> -> |]);
    [.. | by apply elem_of_nil in Ha];
    (repeat (apply elem_of_cons in Hb as [Hb|Hb]; [injection Hb as -> -> |]);
     [.. | by apply elem_of_nil in Hb]);
    try lia; do 2 eexists; (split; [reflexivity |]); (split; [reflexivity |]);
    simpl; lia.
Qed.

(** C5.  The breakpoints are [sm] at 640px, [md] at 768px, [lg] at 1024px,
    [xl] at 1280px and [2xl] at 1536px, min-width thresholds that strictly
    ascend in declaration order.  Of two rules in the cache gated by two
    breakpoints, the rule of the larger threshold is emitted after the
    rule of the smaller one. *)
Theorem breakpoints_ascend_and_emission_follows :
  table_get conditions "sm" = Some "@media (min-width: 640px)"
  /\ table_get conditions "lg" = Some "@media (min-width: 1024px)"
  /\ breakpoints
     = [("sm", 640); ("md", 768); ("lg", 1024); ("xl", 1280); ("2xl", 1536)]
  /\ StronglySorted Z.lt (map snd breakpoints)
  /\ forall (requests : list (string * string * list string))
            (cache : list CompiledRule) (r_a r_b : CompiledRule)
            (a b : string) (wa wb : Z),
       compile_all [] requests = Some cache ->
       r_a ∈ cache -> r_b ∈ cache ->
       rule_conditions r_a = [a] -> rule_conditions r_b = [b] ->
       (a, wa) ∈ breakpoints -> (b, wb) ∈ breakpoints -> wa < wb ->
       exists l1 l2 l3, flush cache = l1 ++ r_a :: l2 ++ r_b :: l3.
Proof.
  split; [reflexivity |]. split; [reflexivity |]. split; [reflexivity |].
  split; [repeat constructor |].
  intros requests cache r_a r_b a b wa wb Hcache Hra Hrb Hca Hcb Ha Hb Hlt.
  assert (ranked cache) as Hranked.
  { eapply compile_all_ranked; [| exact Hcache]. apply Forall_nil_2. }
  unfold ranked in Hranked. rewrite Forall_forall in Hranked.
  pose proof (Hranked r_a Hra) as Hpa. pose proof (Hranked r_b Hrb) as Hpb.
  rewrite Hca in Hpa. rewrite Hcb in Hpb.
  destruct (breakpoint_precedence a b wa wb Ha Hb Hlt) as (pa & pb & Ea & Eb & Hp).
  apply flush_by_precedence; [done | done |]. congruence.
Qed.

(** C5, on a style sheet whose [lg] rule was compiled before its [sm]
    rule: the [sm] rule is emitted first. *)
Lemma breakpoints_ascend_and_emission_follows_witness :
  let r_sm := {| rule_property := "width"; rule_value := "5rem";
                 rule_conditions := ["sm"]; rule_precedence := 3;
                 rule_index := 1 |} in
  let r_lg := {| rule_property := "width"; rule_value := "10rem";
                 rule_conditions := ["lg"]; rule_precedence := 5;
                 rule_index := 0 |} in
  exists cache l1 l2 l3,
    compile_all [] [("width", "10rem", ["lg"]); ("width", "5rem", ["sm"])]
    = Some cache
    /\ flush cache = l1 ++ r_sm :: l2 ++ r_lg :: l3.
Proof.
  intros r_sm r_lg. exists [r_lg; r_sm].
  destruct (proj2 (proj2 (proj2 (proj2 breakpoints_ascend_and_emission_follows)))
              [("width", "10rem", ["lg"]); ("width", "5rem", ["sm"])]
              [r_lg; r_sm] r_sm r_lg "sm" "lg" 640 1024) as (l1 & l2 & l3 & H).
  - reflexivity.
  - right. left.
  - left.
  - reflexivity.
  - reflexivity.
  - left.
  - right. right. left.
  - reflexivity.
  - exists l1, l2, l3. split; [reflexivity | exact H].
Defined.

(** ** Purity of the helpers *)

(** No helper writes to the store. *)
Lemma run_store (c : HelperCall) (st : Store) : snd (run c st) = st.
Proof.
  destruct c; try reflexivity.
  unfold run, baseColor, bind, read, ret, throw.
  by destruct (indexOf (Object_keys (st_color st)) base =? -1).
Qed.

Lemma run_all_results (cs : list HelperCall) (st : Store) :
  run_all cs st = ((fun c => fst (run c st)) <$> cs, st).
Proof.
  induction cs as [|c cs IH]; [done |]. simpl.
  pose proof (run_store c st) as Hc.
  destruct (run c st) as [r st']. simpl in Hc. subst st'.
  by rewrite IH.
Qed.

(** C8.  The helpers are deterministic and free of side effects.  A call
    leaves the store as it found it: the palette, the spacing tables and
    the assets of the compiling context.  Hence, in any sequence of calls
    on a store, the store at the end is the store at the start, and two
    calls of the same helper with the same receiver and arguments return
    the same value, wherever they stand in the sequence. *)
Theorem helpers_deterministic_without_side_effects
    (st : Store) (cs : list HelperCall) :
  (forall c : HelperCall, snd (run c st) = st)
  /\ snd (run_all cs st) = st
  /\ forall (i j : nat) (c : HelperCall),
       cs !! i = Some c -> cs !! j = Some c ->
       fst (run_all cs st) !! i = Some (fst (run c st))
       /\ fst (run_all cs st) !! i = fst (run_all cs st) !! j.
Proof.
  split; [intros c; apply run_store |].
  rewrite run_all_results. split; [done |].
  intros i j c Hi Hj. simpl. rewrite !list_lookup_fmap, Hi, Hj. done.
Qed.

Lemma helpers_deterministic_without_side_effects_witness :
  let cs := [Call_baseColor "blue-400"; Call_size None (num_of_Z 32);
             Call_lightDark None "black" "white"; Call_baseColor "blue-400"] in
  fst (run_all cs (initial sample_tokens)) !! 0%nat
  = fst (run_all cs (initial sample_tokens)) !! 3%nat.
Proof.
  intros cs.
  refine (proj2 (proj2 (proj2 (helpers_deterministic_without_side_effects
                                 (initial sample_tokens) cs))
                       0%nat 3%nat (Call_baseColor "blue-400") _ _));
    reflexivity.
Defined.

(** * Further properties of the theme *)

(** ** Objects: reading after writing *)

Lemma obj_get_update_ne (o : JsObject) (k k' : string) (v : Value) :
  k <> k' -> obj_get (obj_update o k v) k' = obj_get o k'.
Proof.
  intros Hne. induction o as [|[k0 v0] o IH]; [done |]. simpl.
  destruct (String.eqb_spec k0 k) as [->|]; simpl.
  - by destruct (String.eqb_spec k k').
  - by rewrite IH.
Qed.

Lemma obj_get_add_index_ne (o : JsObject) (i : Z) (k k' : string) (v : Value) :
  k <> k' -> obj_get (obj_add_index o i k v) k' = obj_get o k'.
Proof.
  intros Hne. induction o as [|[k0 v0] o IH]; simpl.
  - by destruct (String.eqb_spec k k').
  - destruct (array_index k0) as [j|]; [destruct (j <? i) |]; simpl;
      rewrite ?IH; by destruct (String.eqb_spec k k').
Qed.

Lemma obj_get_app_ne (o : JsObject) (k k' : string) (v : Value) :
  k <> k' -> obj_get (o ++ [(k, v)]) k' = obj_get o k'.
Proof.
  intros Hne. induction o as [|[k0 v0] o IH]; simpl.
  - by destruct (String.eqb_spec k k').
  - by rewrite IH.
Qed.

(** Writing a property leaves the others as they were. *)
Lemma obj_get_set_ne (o : JsObject) (k k' : string) (v : Value) :
  k <> k' -> obj_get (obj_set o k v) k' = obj_get o k'.
Proof.
  intros Hne. unfold obj_set, obj_add. destruct (obj_has o k).
  - by apply obj_get_update_ne.
  - destruct (array_index k).
    + by apply obj_get_add_index_ne.
    + by apply obj_get_app_ne.
Qed.

Lemma obj_get_snoc (o : JsObject) (k k' : string) (v : Value) :
  obj_get (o ++ [(k, v)]) k'
  = match obj_get o k' with
    | Some w => Some w
    | None => if String.eqb k k' then Some v else None
    end.
Proof.
  induction o as [|[k0 v0] o IH]; simpl; [done |].
  by destruct (String.eqb k0 k').
Qed.

(** After a spread, a property reads as the last value written to it. *)
Lemma obj_get_spread (es : list (string * Value)) (o : JsObject) (k : string) :
  obj_get (obj_spread o es) k
  = match obj_get (rev es) k with
    | Some v => Some v
    | None => obj_get o k
    end.
Proof.
  revert o. unfold obj_spread.
  induction es as [|[k0 v0] es IH]; intros o; simpl; [done |].
  rewrite IH, obj_get_snoc. destruct (obj_get (rev es) k); [done |].
  destruct (String.eqb_spec k0 k) as [->|Hne].
  - apply obj_get_set.
  - by apply obj_get_set_ne.
Qed.

Lemma obj_spread_app (o : JsObject) (es1 es2 : list (string * Value)) :
  obj_spread o (es1 ++ es2) = obj_spread (obj_spread o es1) es2.
Proof. unfold obj_spread. apply fold_left_app. Qed.

(** An object literal is the spread of what its members write. *)
Lemma obj_literal_written (ms : list Member) :
  obj_literal ms = obj_spread [] (written ms).
Proof.
  unfold obj_literal, written. generalize (@nil (string * Value)) as o.
  induction ms as [|m ms IH]; intros o; simpl; [done |].
  rewrite obj_spread_app, IH. by destruct m.
Qed.

Lemma obj_get_literal (ms : list Member) (k : string) :
  obj_get (obj_literal ms) k = obj_get (rev (written ms)) k.
Proof.
  rewrite obj_literal_written, obj_get_spread. by destruct (obj_get _ k).
Qed.

Lemma obj_get_elem (o : JsObject) (k : string) (v : Value) :
  obj_get o k = Some v -> (k, v) ∈ o.
Proof.
  induction o as [|[k0 v0] o IH]; simpl; [done |].
  destruct (String.eqb_spec k0 k) as [->|].
  - intros [= ->]. left.
  - intros H. right. by apply IH.
Qed.

Lemma obj_get_NoDup (o : JsObject) (k : string) (v : Value) :
  NoDup (Object_keys o) -> (k, v) ∈ o -> obj_get o k = Some v.
Proof.
  induction o as [|[k0 v0] o IH]; simpl; intros Hnd Hin.
  - by apply elem_of_nil in Hin.
  - apply NoDup_cons in Hnd as [Hk0 Hnd].
    apply elem_of_cons in Hin as [[= -> ->]|Hin].
    + by rewrite String.eqb_refl.
    + destruct (String.eqb_spec k0 k) as [->|]; [| by apply IH].
      exfalso. apply Hk0. unfold Object_keys.
      apply list_elem_of_fmap. by exists (k, v).
Qed.

(** ** Objects: the order of the keys *)

Lemma obj_set_fresh (o : JsObject) (k : string) (v : Value) :
  array_index k = None -> k ∉ Object_keys o -> obj_set o k v = o ++ [(k, v)].
Proof.
  intros Hidx Hfresh. apply obj_has_false in Hfresh.
  unfold obj_set, obj_add. by rewrite Hfresh, Hidx.
Qed.

(** When no key written is an array index, the keys of a spread are the
    keys there were, followed by the new ones in the order of their first
    writing. *)
Lemma keys_spread_fresh (es : list (string * Value)) (o : JsObject) :
  Forall (fun k => array_index k = None) (map fst es) ->
  Object_keys (obj_spread o es)
  = Object_keys o ++ fresh_keys (Object_keys o) (map fst es).
Proof.
  revert o. unfold obj_spread.
  induction es as [|[k v] es IH]; intros o Hidx; simpl.
  - by rewrite app_nil_r.
  - apply Forall_cons in Hidx as [Hk Hidx]. rewrite IH by done.
    destruct (bool_decide_reflect (k ∈ Object_keys o)) as [Hin|Hout].
    + assert (obj_has o k = true) as Hhas.
      { destruct (obj_has o k) eqn:E; [done |]. by apply obj_has_false in E. }
      unfold obj_set. by rewrite Hhas, keys_obj_update.
    + rewrite obj_set_fresh by done. unfold Object_keys.
      rewrite map_app. simpl. by rewrite <- app_assoc.
Qed.

Lemma keys_literal_fresh (ms : list Member) :
  Forall (fun k => array_index k = None) (map fst (written ms)) ->
  Object_keys (obj_literal ms) = fresh_keys [] (map fst (written ms)).
Proof.
  intros Hidx. rewrite obj_literal_written. by rewrite keys_spread_fresh.
Qed.

Lemma fresh_keys_cons (seen : list string) (k : string) (ks : list string) :
  k ∉ seen -> fresh_keys seen (k :: ks) = k :: fresh_keys (seen ++ [k]) ks.
Proof. intros Hk. simpl. by rewrite bool_decide_eq_false_2. Qed.

Lemma fresh_keys_NoDup (ks seen : list string) :
  NoDup ks -> (forall k, k ∈ ks -> k ∉ seen) -> fresh_keys seen ks = ks.
Proof.
  revert seen. induction ks as [|k ks IH]; intros seen Hnd Hdisj; [done |].
  apply NoDup_cons in Hnd as [Hk Hnd].
  rewrite fresh_keys_cons by (apply Hdisj; left). f_equal.
  apply IH; [done |]. intros k' Hk' Hin.
  apply elem_of_app in Hin as [Hin|Hin].
  - apply (Hdisj k'); [by right | done].
  - apply list_elem_of_singleton in Hin as ->. done.
Qed.

(** ** The palette's order *)

(** X1.  When no name written in the palette literal is an array index,
    the keys of the palette are the names in the order in which the
    literal and the scales first write them.  The palette then starts with
    [transparent], [black] and [white], whatever the scales hold, so the
    state colour of [transparent] is [black] and that of [black] is
    [white]. *)
Theorem palette_keys_in_order_of_writing (tk : Tokens) :
  Forall (fun k => array_index k = None) (map fst (written (color_members tk))) ->
  Object_keys (st_color (initial tk))
  = fresh_keys [] (map fst (written (color_members tk)))
  /\ baseColor "transparent" (initial tk)
     = (Normal (interaction_states "transparent" (VStr "black")), initial tk)
  /\ baseColor "black" (initial tk)
     = (Normal (interaction_states "black" (VStr "white")), initial tk).
Proof.
  intros Hidx.
  assert (Object_keys (st_color (initial tk))
          = fresh_keys [] (map fst (written (color_members tk)))) as Hkeys.
  { change (st_color (initial tk)) with (obj_literal (color_members tk)).
    by apply keys_literal_fresh. }
  split; [exact Hkeys |].
  assert (exists rest, Object_keys (st_color (initial tk))
                       = "transparent" :: "black" :: "white" :: rest)
    as [rest Hstart].
  { rewrite Hkeys.
    change (map fst (written (color_members tk)))
      with ("transparent" :: "black" :: "white"
            :: map fst (written (drop 3 (color_members tk)))).
    rewrite fresh_keys_cons by apply not_elem_of_nil.
    rewrite fresh_keys_cons; cycle 1.
    { intros H. apply list_elem_of_singleton in H. discriminate H. }
    rewrite fresh_keys_cons; cycle 1.
    { intros H. repeat (apply elem_of_cons in H as [H|H]; [discriminate H |]).
      by apply elem_of_nil in H. }
    by eexists. }
  split.
  - rewrite (baseColor_at _ "transparent" [] ("black" :: "white" :: rest));
      [| exact Hstart | apply not_elem_of_nil].
    by rewrite (array_read_next [] ("white" :: rest) "transparent" "black").
  - rewrite (baseColor_at _ "black" ["transparent"] ("white" :: rest));
      [| exact Hstart |].
    + by rewrite (array_read_next ["transparent"] rest "black" "white").
    + intros H. apply list_elem_of_singleton in H. discriminate H.
Qed.

Lemma palette_keys_in_order_of_writing_witness :
  baseColor "transparent" (initial sample_tokens)
  = (Normal (interaction_states "transparent" (VStr "black")),
     initial sample_tokens).
Proof.
  refine (proj1 (proj2 (palette_keys_in_order_of_writing sample_tokens _))).
  refine (bool_decide_unpack _ _). vm_compute. exact I.
Defined.

(** ** [generateSpacing] *)

Lemma generateSpacing_spread (px : list number) :
  generateSpacing px
  = obj_spread [] (map (fun p => (Number_toString p, VStr (pxToRem (inr p)))) px).
Proof.
  unfold generateSpacing, obj_spread. generalize (@nil (string * Value)) as o.
  induction px as [|p px IH]; intros o; simpl; [done |]. by rewrite IH.
Qed.

Lemma obj_add_index_perm (o : JsObject) (i : Z) (k : string) (v : Value) :
  obj_add_index o i k v ≡ₚ (k, v) :: o.
Proof.
  induction o as [|[k' v'] o IH]; [done |]. simpl.
  destruct (array_index k') as [j|]; [destruct (j <? i) |]; try done.
  rewrite IH. apply Permutation_swap.
Qed.

Lemma obj_set_new_perm (o : JsObject) (k : string) (v : Value) :
  k ∉ Object_keys o -> obj_set o k v ≡ₚ (k, v) :: o.
Proof.
  intros Hk. apply obj_has_false in Hk. unfold obj_set, obj_add. rewrite Hk.
  destruct (array_index k).
  - apply obj_add_index_perm.
  - symmetry. apply Permutation_cons_append.
Qed.

Lemma obj_spread_perm (es : list (string * Value)) (o : JsObject) :
  NoDup (map fst es) ->
  (forall k, k ∈ map fst es -> k ∉ Object_keys o) ->
  obj_spread o es ≡ₚ o ++ es.
Proof.
  revert o. unfold obj_spread.
  induction es as [|[k v] es IH]; intros o Hnd Hdisj; simpl.
  - by rewrite app_nil_r.
  - simpl in Hnd. apply NoDup_cons in Hnd as [Hk Hnd].
    assert (k ∉ Object_keys o) as Hko by (apply Hdisj; left).
    rewrite IH; [| done |].
    + rewrite obj_set_new_perm by done. simpl. apply Permutation_middle.
    + intros k' Hk' Hin. unfold Object_keys in Hin.
      rewrite obj_set_new_perm in Hin by done. simpl in Hin.
      apply elem_of_cons in Hin as [->|Hin]; [done |].
      apply (Hdisj k'); [by right | done].
Qed.

(** X2.  For pixel values whose spellings differ, [generateSpacing] builds
    the table that binds the spelling of each value to its length in rem:
    the table has these entries and no others, its keys are distinct,
    every listed value reads back as its [pxToRem], and when no spelling
    is an array index (the negative values) the keys keep the order of the
    list. *)
Theorem generateSpacing_table (px : list number) :
  NoDup (map Number_toString px) ->
  let entry p := (Number_toString p, VStr (pxToRem (inr p))) in
  generateSpacing px ≡ₚ map entry px
  /\ NoDup (Object_keys (generateSpacing px))
  /\ (forall p, p ∈ px ->
        obj_get (generateSpacing px) (Number_toString p)
        = Some (VStr (pxToRem (inr p))))
  /\ (Forall (fun p => array_index (Number_toString p) = None) px ->
      Object_keys (generateSpacing px) = map Number_toString px).
Proof.
  intros Hnd entry.
  assert (map fst (map entry px) = map Number_toString px) as Hfst.
  { rewrite map_map. done. }
  rewrite generateSpacing_spread. fold entry. repeat split.
  - rewrite obj_spread_perm; [done | by rewrite Hfst |].
    intros k _. apply not_elem_of_nil.
  - apply obj_spread_NoDup. apply NoDup_nil_2.
  - intros p Hp. rewrite obj_get_spread.
    rewrite (obj_get_NoDup (rev (map entry px)) (Number_toString p)
               (VStr (pxToRem (inr p)))); [done | |].
    + unfold Object_keys. by rewrite map_rev, Hfst, <- Permutation_rev.
    + rewrite <- Permutation_rev. apply (list_elem_of_fmap_2 entry _ _ Hp).
  - intros Hidx. rewrite keys_spread_fresh.
    + simpl. rewrite Hfst. apply fresh_keys_NoDup; [done |].
      intros k _. apply not_elem_of_nil.
    + rewrite Hfst. apply Forall_forall. intros k Hk.
      apply list_elem_of_fmap in Hk as (p & -> & Hp).
      rewrite Forall_forall in Hidx. by apply Hidx.
Qed.

Lemma generateSpacing_table_witness :
  obj_get (generateSpacing (map num_of_Z [-4; 8; -12])) (Number_toString (num_of_Z 8))
  = Some (VStr (pxToRem (inr (num_of_Z 8)))).
Proof.
  refine (proj1 (proj2 (proj2 (generateSpacing_table (map num_of_Z [-4; 8; -12]) _)))
            (num_of_Z 8) _).
  - refine (bool_decide_unpack _ _). vm_compute. exact I.
  - right. left.
Defined.

(** ** Negative lengths *)

Lemma binary_round_aux_opp (s : bool) (m e : Z) (l : location) :
  binary_round_aux prec emax (negb s) m e l
  = SFopp (binary_round_aux prec emax s m e l).
Proof.
  unfold binary_round_aux.
  destruct (shr_fexp prec emax m e l) as [mrs' e'].
  destruct (shr_fexp prec emax _ e' loc_Exact) as [mrs'' e''].
  destruct (shr_m mrs''); [done | | done].
  by destruct (e'' <=? emax - prec).
Qed.

Lemma num_div_neg (x y : number) :
  num_div (num_neg x) y = num_neg (num_div x y).
Proof.
  unfold num_div, num_neg.
  destruct x as [sx|sx| |sx mx ex], y as [sy|sy| |sy my ey]; simpl;
    try done; try (by destruct sx, sy).
  destruct (SFdiv_core_binary prec emax (Z.pos mx) ex (Z.pos my) ey)
    as [[mz ez] lz].
  rewrite <- binary_round_aux_opp. by destruct sx, sy.
Qed.

(** X3.  [pxToRem] is odd: when [px / 16] is a positive finite number, the
    length for [-px] is the length for [px] with a minus sign in front. *)
Theorem pxToRem_negated (px : number) (m : positive) (e : Z) :
  num_div px (num_of_Z 16) = S754_finite false m e ->
  pxToRem (inr (num_neg px)) = "-" +:+ pxToRem (inr px).
Proof.
  intros Hq. unfold pxToRem. rewrite num_div_neg, Hq.
  by rewrite <- str_app_assoc.
Qed.

Lemma pxToRem_negated_witness :
  pxToRem (inr (num_neg (num_of_Z 4))) = "-" +:+ pxToRem (inr (num_of_Z 4)).
Proof.
  refine (pxToRem_negated (num_of_Z 4) 4503599627370496 (-54) _).
  vm_compute. reflexivity.
Defined.

(** X4.  [negativeSpacing] matches [baseSpacing], negated, as the source
    asks of it: leaving the entry for 0 out, it has the same entries in
    the same order, each key and each length with a minus sign in
    front. *)
Theorem negativeSpacing_mirrors_baseSpacing :
  negativeSpacing
  = map (fun kv => ("-" +:+ fst kv,
                    match snd kv with
                    | VStr s => VStr ("-" +:+ s)
                    | v => v
                    end))
        (drop 1 baseSpacing)
  /\ obj_get baseSpacing "0" = Some (VStr "0rem")
  /\ obj_get negativeSpacing "-0" = None.
Proof. split; [| split]; vm_compute; reflexivity. Qed.

(** ** The tables built by spreading *)

Lemma table_included (a b : JsObject) :
  map (fun kv => obj_get b (fst kv)) a = map (fun kv => Some (snd kv)) a ->
  forall k v, obj_get a k = Some v -> obj_get b k = Some v.
Proof.
  intros Hmap k v Hget. apply obj_get_elem in Hget.
  induction a as [|[k0 v0] a IH]; [by apply elem_of_nil in Hget |].
  simpl in Hmap. injection Hmap as H0 Hmap.
  apply elem_of_cons in Hget as [[= -> ->]|Hget]; [done | by apply IH].
Qed.

Lemma table_excluded (a b : JsObject) :
  map (fun kv => obj_get b (fst kv)) a = map (fun _ => None) a ->
  forall k, k ∈ Object_keys a -> obj_get b k = None.
Proof.
  intros Hmap k Hk. unfold Object_keys in Hk.
  induction a as [|[k0 v0] a IH]; [by apply elem_of_nil in Hk |].
  simpl in Hmap. injection Hmap as H0 Hmap.
  apply elem_of_cons in Hk as [->|Hk]; [done | by apply IH].
Qed.

(** X5.  The spreads that build [spacing], [margin], [inset] and
    [translate] overwrite nothing.  Every entry of [baseSpacing] is an
    entry of the four tables; every entry of [spacing] and of
    [negativeSpacing] is an entry of [margin], and every entry of
    [negativeSpacing] one of [translate].  [spacing] and [inset] have no
    negative key, so padding, gap and inset take no negative length.  The
    keys of each table are the keys of its parts, one part after the
    other. *)
Theorem spacing_tables_compose :
  (forall k v, obj_get baseSpacing k = Some v ->
     obj_get spacing k = Some v /\ obj_get margin k = Some v
     /\ obj_get inset k = Some v /\ obj_get translate k = Some v)
  /\ (forall k v, obj_get spacing k = Some v -> obj_get margin k = Some v)
  /\ (forall k v, obj_get negativeSpacing k = Some v ->
        obj_get margin k = Some v /\ obj_get translate k = Some v)
  /\ (forall k, k ∈ Object_keys negativeSpacing ->
        obj_get spacing k = None /\ obj_get inset k = None)
  /\ Object_keys spacing
     = Object_keys baseSpacing
       ++ ["text-to-control"; "text-to-visual"; "edge-to-text"; "pill"]
  /\ Object_keys margin
     = Object_keys spacing ++ Object_keys negativeSpacing ++ ["auto"]
  /\ Object_keys inset = Object_keys baseSpacing ++ ["auto"; "full"]
  /\ Object_keys translate
     = Object_keys baseSpacing ++ Object_keys negativeSpacing ++ ["full"].
Proof.
  split; [| split; [| split; [| split]]].
  - intros k v H. split; [| split; [| split]]; revert k v H;
      apply table_included; vm_compute; reflexivity.
  - apply table_included. vm_compute. reflexivity.
  - intros k v H. split; revert k v H; apply table_included;
      vm_compute; reflexivity.
  - intros k H. split; revert k H; apply table_excluded;
      vm_compute; reflexivity.
  - split; [| split; [| split]]; vm_compute; reflexivity.
Qed.

Lemma spacing_tables_compose_witness :
  obj_get margin "-16" = Some (VStr "-1rem")
  /\ obj_get translate "-16" = Some (VStr "-1rem")
  /\ obj_get spacing "-16" = None.
Proof.
  destruct spacing_tables_compose as (_ & _ & Hneg & Hnone & _).
  destruct (Hneg "-16" (VStr "-1rem")) as [Hm Ht]; [vm_compute; reflexivity |].
  destruct (Hnone "-16") as [Hs _].
  { refine (bool_decide_unpack _ _). vm_compute. exact I. }
  split; [exact Hm |]. split; [exact Ht | exact Hs].
Defined.

(** X6.  Building [sizing] does not throw.  The table has every entry of
    [scaledSpacing], then the named sizes; its [control] and [control-sm]
    sizes are [size] records, so each has a [touch] length 1.25 times its
    [default] length. *)
Theorem sizing_extends_scaledSpacing :
  exists table scaled_table,
    sizing = Normal table
    /\ scaledSpacing = Normal scaled_table
    /\ (forall k v, obj_get scaled_table k = Some v -> obj_get table k = Some v)
    /\ Object_keys table
       = Object_keys baseSpacing
         ++ ["auto"; "full"; "screen"; "min"; "max"; "fit"; "control"; "control-sm"]
    /\ obj_get table "control"
       = Some (VObj [("default", VObj (size None (num_of_Z 32)));
                     ("size", VObj [("XS", VObj (size None (num_of_Z 20)));
                                    ("S", VObj (size None (num_of_Z 24)));
                                    ("L", VObj (size None (num_of_Z 40)));
                                    ("XL", VObj (size None (num_of_Z 48)))])])
    /\ obj_get table "control-sm"
       = Some (VObj [("default", VObj (size None (num_of_Z 16)));
                     ("size", VObj [("S", VObj (size None (num_of_Z 14)));
                                    ("L", VObj (size None (num_of_Z 18)));
                                    ("XL", VObj (size None (num_of_Z 20)))])]).
Proof.
  eexists. eexists.
  split; [vm_compute; reflexivity |]. split; [vm_compute; reflexivity |].
  split; [apply table_included; vm_compute; reflexivity |].
  split; [| split]; vm_compute; reflexivity.
Qed.

Lemma sizing_extends_scaledSpacing_witness :
  exists table,
    sizing = Normal table
    /\ obj_get table "16" = Some (scaled (num_of_Z 1)).
Proof.
  destruct sizing_extends_scaledSpacing
    as (table & scaled_table & Hs & Hss & Hincl & _).
  assert (exists t, scaledSpacing = Normal t
                    /\ obj_get t "16" = Some (scaled (num_of_Z 1)))
    as (t & Ht & Hget).
  { eexists. split; vm_compute; reflexivity. }
  rewrite Ht in Hss. injection Hss as ->.
  exists table. split; [exact Hs |]. by apply Hincl.
Defined.

(** ** The marker *)

Lemma str_length_app (x y : string) :
  String.length (x +:+ y) = (String.length x + String.length y)%nat.
Proof.
  induction x as [|d x IH]; [done |].
  rewrite str_app_cons. simpl. by rewrite IH.
Qed.

Lemma str_app_inj_r (a b c : string) : a +:+ c = b +:+ c -> a = b.
Proof.
  revert b. induction a as [|x a IH]; intros [|y b] H.
  - done.
  - apply (f_equal String.length) in H. rewrite !str_length_app in H.
    simpl in H. lia.
  - apply (f_equal String.length) in H. rewrite !str_length_app in H.
    simpl in H. lia.
  - rewrite !str_app_cons in H. injection H as -> H. f_equal. by apply IH.
Qed.

(** X7.  [arbitrary] loses nothing: with a compiling context the result is
    a marker, without one it is the value itself, and for either receiver
    two values with the same result are the same value. *)
Theorem arbitrary_lossless (this : Receiver) (a b : string) :
  (arbitrary this a = arbitrary this b -> a = b)
  /\ arbitrary None a = a
  /\ (forall ctx, is_marker (arbitrary (Some ctx) a) = true)
  /\ (forall ctx, arbitrary (Some ctx) a <> arbitrary None a).
Proof.
  split; [| split; [done | split]].
  - destruct this as [ctx|]; [| done]. unfold arbitrary. intros H.
    rewrite !str_app_cons in H. injection H as H.
    change (a +:+ "]" = b +:+ "]") in H. by apply str_app_inj_r in H.
  - intros ctx. apply is_marker_brackets.
  - intros ctx H. unfold arbitrary in H.
    apply (f_equal String.length) in H. rewrite !str_length_app in H.
    simpl in H. lia.
Qed.

Lemma arbitrary_lossless_witness :
  arbitrary (Some macro_context) "0.5rem" = arbitrary (Some macro_context) "0.5rem"
  /\ "0.5rem" = "0.5rem".
Proof.
  split; [reflexivity |].
  refine (proj1 (arbitrary_lossless (Some macro_context) "0.5rem" "0.5rem") _).
  reflexivity.
Defined.

(** X8.  [fontRelative] returns a marker exactly when it is called inside
    a compiling context, the marker of what the plain call returns; an
    absent base font size counts as 14. *)
Theorem fontRelative_marker_iff_context
    (this : Receiver) (base : number) (baseFontSize : option number) :
  is_marker (fontRelative this base baseFontSize)
  = match this with Some _ => true | None => false end
  /\ fontRelative this base baseFontSize
     = arbitrary this (fontRelative None base baseFontSize)
  /\ fontRelative this base None = fontRelative this base (Some (num_of_Z 14))
  /\ fontRelative None base baseFontSize
     = Number_toString
         (num_div base (match baseFontSize with
                        | Some n => n
                        | None => num_of_Z 14
                        end)) +:+ "em".
Proof.
  split; [| by repeat split].
  unfold fontRelative, arbitrary. destruct this.
  - apply is_marker_brackets.
  - by apply is_marker_unit.
Qed.

(** ** Reading the tables at a key that is not there *)

(** X9.  [edgeToText] never throws and never checks its key.  On a key of
    [baseSpacing] bound to the length [v] it returns [calc(v * 3 / 8)];
    on any other height it returns [calc(undefined * 3 / 8)].  The
    receiver makes no difference, the result is never a marker, and the
    store is left as it was. *)
Theorem edgeToText_no_key_check (this : Receiver) (st : Store) (height : number) :
  (forall v, obj_get (st_baseSpacing st) (Number_toString height) = Some (VStr v) ->
     edgeToText this height st = (Normal ("calc(" +:+ v +:+ " * 3 / 8)"), st))
  /\ (obj_get (st_baseSpacing st) (Number_toString height) = None ->
      edgeToText this height st = (Normal "calc(undefined * 3 / 8)", st))
  /\ (exists s, edgeToText this height st = (Normal s, st)
                /\ is_marker s = false)
  /\ edgeToText this height st = edgeToText None height st.
Proof.
  unfold edgeToText, bind, read, ret, obj_read.
  split; [| split; [| split; [| done]]].
  - by intros v ->.
  - by intros ->.
  - eexists. split; [reflexivity |]. rewrite str_app_cons. unfold is_marker.
    done.
Qed.

Lemma edgeToText_no_key_check_witness :
  edgeToText (Some macro_context) (num_of_Z 33) (initial sample_tokens)
  = (Normal "calc(undefined * 3 / 8)", initial sample_tokens)
  /\ edgeToText None (num_of_Z 32) (initial sample_tokens)
     = (Normal "calc(2rem * 3 / 8)", initial sample_tokens).
Proof.
  split.
  - refine (proj1 (proj2 (edgeToText_no_key_check
                            (Some macro_context) (initial sample_tokens)
                            (num_of_Z 33))) _).
    vm_compute. reflexivity.
  - refine (proj1 (edgeToText_no_key_check None (initial sample_tokens)
                     (num_of_Z 32)) "2rem" _).
    vm_compute. reflexivity.
Defined.



(** ** [baseColor]: the state colour *)

(** X11.  When the keys of the palette are distinct and [baseColor base]
    returns, it returns the record of [base] and one state value for the
    three states.  That value is [undefined] only for the last key of the
    palette; otherwise it is a key of the palette other than [base], on
    which [baseColor] returns in turn. *)
Theorem baseColor_state_is_a_key (st : Store) (base : string) (o : JsObject) :
  NoDup (Object_keys (st_color st)) ->
  fst (baseColor base st) = Normal o ->
  exists next,
    o = interaction_states base next
    /\ ((next = VUndef /\ last (Object_keys (st_color st)) = Some base)
        \/ exists n, next = VStr n
                     /\ n ∈ Object_keys (st_color st)
                     /\ n <> base
                     /\ exists o', fst (baseColor n st) = Normal o').
Proof.
  intros Hnd Ho.
  destruct (decide (base ∈ Object_keys (st_color st))) as [Hin|Hout];
    [| by rewrite baseColor_absent in Ho].
  apply list_elem_of_split_l in Hin as (l1 & l2 & Hkeys & Hfirst).
  rewrite (baseColor_at st base l1 l2) in Ho by done.
  simpl in Ho. injection Ho as <-. eexists. split; [reflexivity |].
  destruct l2 as [|n l2].
  - left. rewrite array_read_past_end, Hkeys. split; [done |]. apply last_snoc.
  - right. exists n. rewrite array_read_next. split; [done |].
    assert (n ∈ Object_keys (st_color st)) as Hn.
    { rewrite Hkeys. apply elem_of_app. right. right. left. }
    split; [exact Hn |]. split.
    + intros ->. rewrite Hkeys in Hnd.
      apply NoDup_app in Hnd as (_ & _ & Hnd).
      apply NoDup_cons in Hnd as [Hb _]. apply Hb. left.
    + apply list_elem_of_split_l in Hn as (r1 & r2 & Hkeys' & Hfirst').
      rewrite (baseColor_at st n r1 r2) by done. by eexists.
Qed.

Lemma baseColor_state_is_a_key_witness :
  exists next,
    interaction_states "white" (VStr "gray-100") = interaction_states "white" next
    /\ ((next = VUndef
         /\ last (Object_keys (st_color (initial sample_tokens))) = Some "white")
        \/ exists n, next = VStr n
                     /\ n ∈ Object_keys (st_color (initial sample_tokens))
                     /\ n <> "white"
                     /\ exists o', fst (baseColor n (initial sample_tokens))
                                   = Normal o').
Proof.
  refine (baseColor_state_is_a_key (initial sample_tokens) "white" _ _ _).
  - apply color_NoDup.
  - vm_compute. reflexivity.
Defined.

(** ** The unit of a scaled length *)

Lemma match_non_numeric_None (s : string) :
  match_non_numeric s = None <-> str_forall is_numeric_char s = true.
Proof.
  induction s as [|c s IH]; simpl; [done |].
  destruct (is_numeric_char c); simpl; [exact IH | done].
Qed.

Lemma take_non_numeric_all (u : string) :
  str_forall (fun c => negb (is_numeric_char c)) u = true ->
  take_non_numeric u = u.
Proof.
  induction u as [|c u IH]; simpl; [done |].
  destruct (is_numeric_char c); simpl; [done |]. intros H. by rewrite IH.
Qed.

Lemma match_non_numeric_unit (n u : string) :
  str_forall is_numeric_char n = true ->
  u <> "" ->
  str_forall (fun c => negb (is_numeric_char c)) u = true ->
  match_non_numeric (n +:+ u) = Some u.
Proof.
  intros Hn Hu Hall. induction n as [|c n IH].
  - change ("" +:+ u) with u. destruct u as [|c u]; [done |].
    pose proof (take_non_numeric_all _ Hall) as Htake.
    cbn [match_non_numeric]. simpl in Hall.
    destruct (is_numeric_char c) eqn:E; [done |]. by rewrite Htake.
  - rewrite str_app_cons. simpl in Hn |- *.
    destruct (is_numeric_char c); [| done]. by apply IH.
Qed.

(** X12.  An entry of the touch-scaled table can be built exactly for a
    string that has a character other than a digit or a dot: on a string
    of digits and dots alone the entry throws.  The unit is the first run
    of such characters: for digits followed by a unit it is the unit, and
    for a length with a minus sign in front it is the minus sign, which is
    then put behind the scaled number. *)
Theorem scaled_entry_takes_first_unit (k s : string) :
  ((exists e, scaled_entry (k, VStr s) = Throw e)
   <-> str_forall is_numeric_char s = true)
  /\ (forall n u,
        s = n +:+ u ->
        str_forall is_numeric_char n = true ->
        u <> "" ->
        str_forall (fun c => negb (is_numeric_char c)) u = true ->
        scaled_entry (k, VStr s)
        = Normal (k, VObj [("default", VStr s);
                           ("touch",
                            VStr (Number_toString (num_mul (parseFloat s) num_1_25)
                                  +:+ u))]))
  /\ (forall c r,
        s = String "-" (String c r) ->
        is_numeric_char c = true ->
        scaled_entry (k, VStr s)
        = Normal (k, VObj [("default", VStr s);
                           ("touch",
                            VStr (Number_toString (num_mul (parseFloat s) num_1_25)
                                  +:+ "-"))])).
Proof.
  split; [| split].
  - unfold scaled_entry. rewrite <- match_non_numeric_None.
    destruct (match_non_numeric s); split; try done.
    + by intros [e He].
    + intros _. by eexists.
  - intros n u -> Hn Hu Hall. unfold scaled_entry.
    by rewrite match_non_numeric_unit.
  - intros c r -> Hc. unfold scaled_entry. simpl. by rewrite Hc.
Qed.

Lemma scaled_entry_takes_first_unit_witness :
  scaled_entry ("4", VStr "0.25rem")
  = Normal ("4", VObj [("default", VStr "0.25rem"); ("touch", VStr "0.3125rem")])
  /\ scaled_entry ("-4", VStr "-0.25rem")
     = Normal ("-4", VObj [("default", VStr "-0.25rem");
                           ("touch", VStr "-0.3125-")])
  /\ exists e, scaled_entry ("4", VStr "0.25") = Throw e.
Proof.
  split; [| split].
  - refine (eq_trans
              (proj1 (proj2 (scaled_entry_takes_first_unit "4" "0.25rem"))
                 "0.25" "rem" _ _ _ _) _);
      [reflexivity | reflexivity | discriminate | reflexivity |].
    vm_compute. reflexivity.
  - refine (eq_trans
              (proj2 (proj2 (scaled_entry_takes_first_unit "-4" "-0.25rem"))
                 "0"%char ".25rem" _ _) _);
      [reflexivity | reflexivity |].
    vm_compute. reflexivity.
  - apply (proj1 (scaled_entry_takes_first_unit "4" "0.25")). reflexivity.
Defined.

(** ** [pxToRem] on strings *)






(** ** Shorthands and the properties they write *)

Lemma table_get_elem {A} (t : list (string * A)) (name : string) (a : A) :
  table_get t name = Some a -> (name, a) ∈ t.
Proof.
  induction t as [|[k b] t IH]; simpl; [done |].
  destruct (String.eqb_spec k name) as [->|].
  - intros [= ->]. left.
  - intros H. right. by apply IH.
Qed.

Ltac decide_closed := refine (bool_decide_unpack _ _); vm_compute; exact I.

Lemma shorthand_targets_checked (v : Value) :
  Forall (fun entry =>
            let targets := shorthand_targets (snd entry) v in
            targets <> [] /\ NoDup targets
            /\ Forall (fun p => p ∈ property_names) targets
            /\ Forall (fun p => table_get shorthands p = None \/ p = fst entry)
                      targets)
         shorthands.
Proof.
  unfold shorthands.
  repeat (apply Forall_cons; split;
          [cbn [snd fst shorthand_targets];
           split; [discriminate |];
           split; [decide_closed |];
           split; [decide_closed |];
           repeat (apply Forall_cons; split;
                   [first [left; reflexivity | right; reflexivity] |]);
           apply Forall_nil_2 |]).
  apply Forall_nil_2.
Qed.

(** X14.  What the shorthands write is declared.  Every shorthand, of
    either form and for every value, writes at least one property, writes
    no property twice, and writes only names that are keys of
    [properties].  None of the names it writes is a shorthand in turn,
    but for [transition] and [animation], which write to the property of
    their own name; these two are the only shorthands whose name is also a
    property. *)
Theorem shorthands_write_declared_properties
    (name : string) (sh : Shorthand) (v : Value) :
  table_get shorthands name = Some sh ->
  let targets := shorthand_targets sh v in
  targets <> []
  /\ NoDup targets
  /\ (forall p, p ∈ targets -> p ∈ property_names)
  /\ (forall p, p ∈ targets -> table_get shorthands p = None \/ p = name)
  /\ (name ∈ property_names <-> name = "transition" \/ name = "animation").
Proof.
  intros Hget targets. apply table_get_elem in Hget.
  pose proof (shorthand_targets_checked v) as Hall.
  rewrite Forall_forall in Hall.
  destruct (Hall _ Hget) as (Hne & Hnd & Hprops & Hshort). simpl in *.
  rewrite Forall_forall in Hprops, Hshort.
  split; [done |]. split; [done |]. split; [done |]. split; [done |].
  clear -Hget. unfold shorthands in Hget.
  repeat (apply elem_of_cons in Hget as [Hget|Hget];
          [injection Hget as -> _;
           split; [intros H; first [by left | by right
                                    | exfalso; revert H; decide_closed]
                  | intros [H|H]; first [discriminate H | decide_closed]] |]).
  by apply elem_of_nil in Hget.
Qed.

Lemma shorthands_write_declared_properties_witness :
  "insetStart" ∈ property_names.
Proof.
  refine (proj1 (proj2 (proj2 (shorthands_write_declared_properties
                                 "inset"
                                 (Longhands ["top"; "bottom"; "insetStart"; "insetEnd"])
                                 VUndef _)))
            "insetStart" _).
  - reflexivity.
  - right. right. left.
Defined.

(** X15.  The values the function-form shorthands add on their own are
    values of the properties they are written to.  Each string [truncate]
    writes is listed in the enumeration of its property.  The duration
    that [transition] and [animation] write is the number 150, which the
    duration transform declares as [150ms], and the timing function they
    write is a key of [timingFunction]; the [animation] entry is declared
    as [animationName]. *)
Theorem function_shorthands_write_listed_values (v : Value) :
  (forall fn p x,
     table_get shorthands "truncate" = Some (Expansion fn) ->
     (p, x) ∈ fn v ->
     exists domain s,
       table_get enumerations p = Some domain /\ x = VStr s /\ s ∈ domain)
  /\ (forall fn name,
        name = "transition" \/ name = "animation" ->
        table_get shorthands name = Some (Expansion fn) ->
        exists duration timing,
          fn v = [(name, v);
                  (name +:+ "Duration", duration);
                  (name +:+ "TimingFunction", VStr timing)]
          /\ durationProperty_fn duration (name +:+ "Duration")
             = [(name +:+ "Duration", VStr "150ms")]
          /\ obj_has timingFunction timing = true)
  /\ animation_fn v "animation" = [("animationName", v)]
  /\ (forall property, property <> "animation" ->
        animation_fn v property = [(property, v)]).
Proof.
  split; [| split; [| split]].
  - intros fn p x [= <-] Hin.
    change (obj_literal _)
      with [("overflowX", VStr "hidden"); ("overflowY", VStr "hidden");
            ("textOverflow", VStr "ellipsis"); ("whiteSpace", VStr "nowrap")]
      in Hin.
    repeat (apply elem_of_cons in Hin as [Hin|Hin];
            [injection Hin as -> ->; do 2 eexists;
             split; [reflexivity |]; split; [reflexivity |]; decide_closed |]).
    by apply elem_of_nil in Hin.
  - intros fn name [->| ->] [= <-]; do 2 eexists;
      (split; [reflexivity |]); split; vm_compute; reflexivity.
  - reflexivity.
  - intros property Hne. unfold animation_fn, obj_literal. simpl.
    destruct (String.eqb_spec property "animation"); [done |].
    apply obj_set_nil.
Qed.

Lemma function_shorthands_write_listed_values_witness :
  exists domain s,
    table_get enumerations "whiteSpace" = Some domain
    /\ VStr "nowrap" = VStr s /\ s ∈ domain.
Proof.
  refine (proj1 (function_shorthands_write_listed_values (VBool true))
            _ "whiteSpace" (VStr "nowrap") _ _).
  - reflexivity.
  - right. right. right. left.
Defined.

(** ** The enumerated domains *)

(** X16.  No enumerated domain is empty, and none lists a value twice,
    but for [transformOrigin]: its list has [top right] at two places and
    does not have [top left], the one corner that is missing from it. *)
Theorem enumerations_without_repetition_but_one :
  (forall name domain,
     table_get enumerations name = Some domain ->
     domain <> []
     /\ (name <> "transformOrigin" -> NoDup domain)
     /\ name ∈ property_names)
  /\ NoDup (map fst enumerations)
  /\ exists domain,
       table_get enumerations "transformOrigin" = Some domain
       /\ domain !! 2%nat = Some "top right"
       /\ domain !! 8%nat = Some "top right"
       /\ ("top left" ∉ domain)
       /\ Forall (fun corner => corner ∈ domain)
                 ["top right"; "bottom right"; "bottom left"].
Proof.
  split; [| split].
  - intros name domain Hget. apply table_get_elem in Hget.
    assert (Forall (fun entry =>
                      snd entry <> []
                      /\ (fst entry <> "transformOrigin" -> NoDup (snd entry))
                      /\ fst entry ∈ property_names) enumerations) as Hall.
    { unfold enumerations.
      repeat (apply Forall_cons; split;
              [cbn [fst snd]; split; [discriminate |];
               split; [first [intros _; decide_closed | by intros []]
                      | decide_closed] |]).
      apply Forall_nil_2. }
    rewrite Forall_forall in Hall. apply (Hall _ Hget).
  - decide_closed.
  - eexists. split; [reflexivity |]. split; [reflexivity |].
    split; [reflexivity |]. split; decide_closed.
Qed.

Lemma enumerations_without_repetition_but_one_witness :
  NoDup ["ellipsis"; "clip"].
Proof.
  refine (proj1 (proj2 (proj1 enumerations_without_repetition_but_one
                          "textOverflow" ["ellipsis"; "clip"] _)) _).
  - reflexivity.
  - discriminate.
Defined.

(** ** Grid tracks *)

Lemma gridTrackSize_returns (value : string + number) (st : Store) :
  exists t, gridTrackSize value st = (Normal t, st).
Proof.
  unfold gridTrackSize, bind, read, ret.
  destruct (obj_has _ _); [by eexists |].
  destruct (bool_decide _); by eexists.
Qed.

Lemma array_mapM_gridTrackSize_returns (sizes : list (string + number)) (st : Store) :
  exists ts, array_mapM gridTrackSize sizes st = (Normal ts, st).
Proof.
  induction sizes as [|value sizes [ts IH]]; [by eexists |].
  destruct (gridTrackSize_returns value st) as [t Ht].
  exists (t :: ts). simpl. unfold bind at 1. rewrite Ht.
  unfold bind at 1. by rewrite IH.
Qed.

Lemma array_mapM_plain_names (names : list string) (st : Store) :
  Forall (fun k => obj_get (st_baseSpacing st) k = None /\ k ∉ Object_prototype)
         names ->
  array_mapM gridTrackSize (map inl names) st
  = (Normal (map (fun k => Plain (VStr k)) names), st).
Proof.
  induction names as [|k names IH]; intros Hall; [done |].
  apply Forall_cons in Hall as [[Hget Hproto] Hall]. simpl.
  unfold bind at 1. unfold gridTrackSize at 1, bind, read, ret, obj_has. simpl.
  rewrite Hget, bool_decide_eq_false_2 by done.
  fold (@bind (list Track) (list Track)). unfold bind. by rewrite IH.
Qed.

Lemma track_texts_plain_names (names : list string) :
  track_texts (map (fun k => Plain (VStr k)) names) = Some names.
Proof. induction names as [|k names IH]; [done |]. simpl. by rewrite IH. Qed.

(** X17.  [gridTrack] returns a string as it is, without looking it up:
    a key of [baseSpacing] given as a bare string stays the key, while the
    same key in an array becomes its length.  An array of names that are
    neither keys of [baseSpacing] nor members of [Object.prototype] is
    joined with single spaces, unchanged; the empty array gives the empty
    string.  No call throws or changes the store. *)
Theorem gridTrack_looks_up_only_in_arrays (st : Store) :
  (forall s, gridTrack (inl s) st = (Normal (Some s), st))
  /\ (forall k v,
        obj_get (st_baseSpacing st) k = Some (VStr v) ->
        gridTrack (inr [inl k]) st = (Normal (Some v), st)
        /\ gridTrack (inl k) st = (Normal (Some k), st))
  /\ (forall names,
        Forall (fun k => obj_get (st_baseSpacing st) k = None
                         /\ k ∉ Object_prototype) names ->
        gridTrack (inr (map inl names)) st = (Normal (Some (join " " names)), st))
  /\ gridTrack (inr []) st = (Normal (Some ""), st)
  /\ (forall value, exists r, gridTrack value st = (Normal r, st)).
Proof.
  split; [done |]. split; [| split; [| split; [done |]]].
  - intros k v Hget. split; [| done].
    unfold gridTrack, bind. simpl. unfold bind at 1.
    unfold gridTrackSize, bind, read, ret, obj_has, obj_read. simpl.
    by rewrite Hget.
  - intros names Hall. unfold gridTrack. unfold bind at 1.
    rewrite array_mapM_plain_names by done. unfold ret.
    by rewrite track_texts_plain_names.
  - intros [s|sizes]; [by eexists |].
    destruct (array_mapM_gridTrackSize_returns sizes st) as [ts Hts].
    unfold gridTrack, bind. rewrite Hts. by eexists.
Qed.

Lemma gridTrack_looks_up_only_in_arrays_witness :
  gridTrack (inr [inl "16"]) (initial sample_tokens)
  = (Normal (Some "1rem"), initial sample_tokens)
  /\ gridTrack (inl "16") (initial sample_tokens)
     = (Normal (Some "16"), initial sample_tokens)
  /\ gridTrack (inr [inl "auto"; inl "1fr"]) (initial sample_tokens)
     = (Normal (Some "auto 1fr"), initial sample_tokens).
Proof.
  destruct (gridTrack_looks_up_only_in_arrays (initial sample_tokens))
    as (_ & Hkey & Hnames & _).
  destruct (Hkey "16" "1rem") as [Harr Hstr]; [vm_compute; reflexivity |].
  split; [exact Harr |]. split; [exact Hstr |].
  refine (Hnames ["auto"; "1fr"] _).
  repeat (apply Forall_cons; split;
          [split; [vm_compute; reflexivity | decide_closed] |]).
  apply Forall_nil_2.
Defined.

(** ** The palette in the colour properties *)

Lemma obj_get_app_l (o o' : JsObject) (k : string) (v : Value) :
  obj_get o k = Some v -> obj_get (o ++ o') k = Some v.
Proof.
  induction o as [|[k0 v0] o IH]; simpl; [done |].
  by destruct (String.eqb k0 k).
Qed.

Lemma obj_get_app_r (o o' : JsObject) (k : string) :
  obj_get o k = None -> obj_get (o ++ o') k = obj_get o' k.
Proof.
  induction o as [|[k0 v0] o IH]; simpl; [done |].
  by destruct (String.eqb k0 k).
Qed.

Lemma obj_get_rev (o : JsObject) (k : string) :
  NoDup (Object_keys o) -> obj_get (rev o) k = obj_get o k.
Proof.
  intros Hnd. destruct (obj_get o k) as [v|] eqn:Hget.
  - apply obj_get_NoDup.
    + unfold Object_keys. by rewrite map_rev, <- Permutation_rev.
    + rewrite <- Permutation_rev. by apply obj_get_elem.
  - apply obj_get_None. apply obj_get_None in Hget.
    unfold Object_keys in *. by rewrite map_rev, <- Permutation_rev.
Qed.

Lemma obj_get_spread_first (palette : JsObject) (ms : list Member)
    (k : string) (v : Value) :
  NoDup (Object_keys palette) ->
  obj_get palette k = Some v ->
  obj_get (rev (written ms)) k = None ->
  obj_get (obj_literal (Spread palette :: ms)) k = Some v.
Proof.
  intros Hnd Hget Hnone. rewrite obj_get_literal.
  change (written (Spread palette :: ms)) with (palette ++ written ms).
  rewrite rev_app_distr, obj_get_app_r by done. by rewrite obj_get_rev.
Qed.

Lemma obj_get_spread_last (palette : JsObject) (ms : list Member)
    (k : string) (v : Value) :
  NoDup (Object_keys palette) ->
  obj_get palette k = Some v ->
  obj_get (obj_literal (ms ++ [Spread palette])) k = Some v.
Proof.
  intros Hnd Hget. rewrite obj_get_literal. unfold written.
  rewrite map_app, concat_app. simpl. rewrite app_nil_r, rev_app_distr.
  apply obj_get_app_l. by rewrite obj_get_rev.
Qed.

(** X18.  The colour properties take the palette in.  A name of the
    palette has its palette value in [stroke], whatever the palette holds,
    since the palette is spread last there.  In [borderColor] and
    [outlineColor] the palette is spread first: a palette name keeps its
    value unless it is one of the names written after it ([negative] and
    [disabled], [focus-ring]), which then hold the theme's own value. *)
Theorem palette_in_colour_properties
    (tk : Tokens) (colorToken : string -> string) (k : string) (v : Value) :
  obj_get (color tk) k = Some v ->
  obj_get (stroke_map tk) k = Some v
  /\ (k <> "negative" -> k <> "disabled" ->
      obj_get (borderColor_map tk colorToken) k = Some v)
  /\ (k <> "focus-ring" -> obj_get (outlineColor_map tk colorToken) k = Some v)
  /\ obj_get (borderColor_map tk colorToken) "disabled"
     = Some (VStr (colorToken "disabled-border-color"))
  /\ obj_get (outlineColor_map tk colorToken) "focus-ring"
     = Some (VObj [("default", VStr (colorToken "focus-indicator-color"));
                   ("forcedColors", VStr "Highlight")]).
Proof.
  intros Hget.
  pose proof (obj_literal_NoDup (color_members tk)) as Hnd.
  change (obj_literal (color_members tk)) with (color tk) in Hnd.
  split; [| split; [| split; [| split]]].
  - by apply (obj_get_spread_last (color tk)
                [Field "none" (VStr "none");
                 Field "currentColor" (VStr "currentColor")]).
  - intros Hn Hd. apply obj_get_spread_first; [done | done |].
    cbn [written map concat member_entries app rev obj_get].
    destruct (String.eqb_spec "disabled" k); [congruence |].
    by destruct (String.eqb_spec "negative" k); [congruence |].
  - intros Hf. apply obj_get_spread_first; [done | done |].
    cbn [written map concat member_entries app rev obj_get].
    by destruct (String.eqb_spec "focus-ring" k); [congruence |].
  - unfold borderColor_map. rewrite obj_get_literal.
    generalize (color tk). intros palette.
    unfold written. cbn [map concat member_entries].
    rewrite rev_app_distr. cbn [rev app obj_get].
    by rewrite String.eqb_refl.
  - unfold outlineColor_map. rewrite obj_get_literal.
    generalize (color tk). intros palette.
    unfold written. cbn [map concat member_entries].
    rewrite rev_app_distr. cbn [rev app obj_get].
    by rewrite String.eqb_refl.
Qed.

Lemma palette_in_colour_properties_witness :
  obj_get (stroke_map sample_tokens) "blue-400" = Some (VStr "var(--blue-400)")
  /\ obj_get (borderColor_map sample_tokens (fun name => "var(--" +:+ name +:+ ")"))
             "blue-400"
     = Some (VStr "var(--blue-400)").
Proof.
  destruct (palette_in_colour_properties
              sample_tokens (fun name => "var(--" +:+ name +:+ ")")
              "blue-400" (VStr "var(--blue-400)")) as (Hs & Hb & _).
  - vm_compute. reflexivity.
  - split; [exact Hs |]. apply Hb; discriminate.
Defined.
